(** * claude-mcp-server: the request-to-subprocess translation layer

    A shallow embedding of [src/claude-service.ts] (command building, the
    injectable execution function, [parseClaudeJsonResponse]) and of the
    dispatch layer [handlers.ts] ([handleClaude], [handleClaudeReply],
    [handleToolCall]), together with models of the JavaScript built-ins
    the code calls ([JSON.parse], [JSON.stringify], [String.prototype.trim],
    truthiness) and of the word splitting done by [/bin/bash], the shell
    the default execution function runs the command line with.

    Layout: definitions first (modules [Js], [Json], [Bash], [Service],
    [Handlers], and the notions the statements use in [Notions]), then
    the lemmas and theorems. *)

From Stdlib Require Import List NArith ZArith String Ascii Bool Lia.
Import ListNotations.

#[local] Set Warnings "-register-all".
Local Open Scope N_scope.
Local Open Scope list_scope.

(* ===================================================================== *)
(** ** JavaScript strings                                                  *)
(* ===================================================================== *)

Module Js.

(** A JavaScript string is a sequence of 16-bit code units. *)
Definition code_unit := N.
Definition jsstring := list code_unit.

(** An ASCII literal as a JavaScript string. *)
Definition str (s : string) : jsstring :=
  map N_of_ascii (list_ascii_of_string s).

(** A literal in which the apostrophe stands for the double quote, to
    write JSON texts and quoted command lines. *)
Definition qstr (s : string) : jsstring :=
  map (fun c => if c =? 39 then 34 else c) (str s).

Fixpoint jsstring_eqb (a b : jsstring) : bool :=
  match a, b with
  | [], [] => true
  | x :: a', y :: b' => (x =? y) && jsstring_eqb a' b'
  | _, _ => false
  end.

(** [s.length > 0], the truthiness of a string. *)
Definition nonempty (s : jsstring) : bool :=
  match s with [] => false | _ :: _ => true end.

(** Truthiness of an optional string ([undefined] is falsy, and so is the
    empty string): the test of [if (options?.model)], [if (sessionId)]. *)
Definition truthy_opt (o : option jsstring) : bool :=
  match o with Some s => nonempty s | None => false end.

(** WhiteSpace and LineTerminator code units, the ones [trim] strips. *)
Definition is_js_whitespace (c : code_unit) : bool :=
  (c =? 9) || (c =? 10) || (c =? 11) || (c =? 12) || (c =? 13) || (c =? 32)
  || (c =? 160) || (c =? 5760)
  || ((8192 <=? c) && (c <=? 8202))
  || (c =? 8232) || (c =? 8233) || (c =? 8239) || (c =? 8287)
  || (c =? 12288) || (c =? 65279).

Fixpoint drop_while (p : code_unit -> bool) (s : jsstring) : jsstring :=
  match s with
  | [] => []
  | c :: s' => if p c then drop_while p s' else s
  end.

(** The first code unit, if any, fails the test. *)
Definition starts_clean (p : code_unit -> bool) (s : jsstring) : Prop :=
  match s with [] => True | c :: _ => p c = false end.

Definition trimStart (s : jsstring) : jsstring := drop_while is_js_whitespace s.
Definition trimEnd (s : jsstring) : jsstring := rev (drop_while is_js_whitespace (rev s)).

(** [String.prototype.trim]. *)
Definition trim (s : jsstring) : jsstring := trimEnd (trimStart s).

(** The decimal digits of a natural number, as code units. *)
Fixpoint uint_digits (u : Decimal.uint) : jsstring :=
  match u with
  | Decimal.Nil => []
  | Decimal.D0 u' => 48 :: uint_digits u'
  | Decimal.D1 u' => 49 :: uint_digits u'
  | Decimal.D2 u' => 50 :: uint_digits u'
  | Decimal.D3 u' => 51 :: uint_digits u'
  | Decimal.D4 u' => 52 :: uint_digits u'
  | Decimal.D5 u' => 53 :: uint_digits u'
  | Decimal.D6 u' => 54 :: uint_digits u'
  | Decimal.D7 u' => 55 :: uint_digits u'
  | Decimal.D8 u' => 56 :: uint_digits u'
  | Decimal.D9 u' => 57 :: uint_digits u'
  end.

Definition digits_of_N (n : N) : jsstring := uint_digits (N.to_uint n).

Definition is_digit (c : code_unit) : bool := (48 <=? c) && (c <=? 57).

(** Value of a hexadecimal digit, upper or lower case. *)
Definition hex_value (c : code_unit) : option N :=
  if is_digit c then Some (c - 48)
  else if (97 <=? c) && (c <=? 102) then Some (c - 87)
  else if (65 <=? c) && (c <=? 70) then Some (c - 55)
  else None.

(** The lower-case hexadecimal digit of a value below 16. *)
Definition hex_digit (v : N) : code_unit :=
  if v <? 10 then 48 + v else 87 + v.

End Js.
Export Js.

(* ===================================================================== *)
(** ** JSON values, [JSON.stringify] and [JSON.parse]                      *)
(* ===================================================================== *)

Module Json.

(** A number is kept as the exact decimal it was written as:
    [(-1)^neg * mant * 10^exp].  JavaScript rounds it to a double; the
    two agree on every decimal of at most 15 significant digits inside the
    double range, which is where [number_to_string] prints what
    JavaScript prints and where a number is zero just when its digits
    are; outside it (a literal of 20 digits, [1e-400]) the text printed
    and the zero test of this model can differ from JavaScript's. *)
Record number := { num_neg : bool; num_mant : N; num_exp : Z }.

(** What [JSON.parse] returns.  An object keeps its members in property
    order; keys are unique. *)
Inductive json :=
| JNull
| JBool (b : bool)
| JNumber (n : number)
| JString (s : jsstring)
| JArray (items : list json)
| JObject (members : list (jsstring * json)).

(** ToBoolean. *)
Definition truthy (v : json) : bool :=
  match v with
  | JNull => false
  | JBool b => b
  | JNumber n => negb (num_mant n =? 0)
  | JString s => nonempty s
  | JArray _ => true
  | JObject _ => true
  end.

(** [a || b] where [a] may be [undefined] ([None]). *)
Definition js_or (a : option json) (b : json) : json :=
  match a with
  | Some v => if truthy v then v else b
  | None => b
  end.

Fixpoint lookup (k : jsstring) (ms : list (jsstring * json)) : option json :=
  match ms with
  | [] => None
  | (k', v) :: ms' => if jsstring_eqb k k' then Some v else lookup k ms'
  end.

(** [j.k] for a key [k] that names no built-in property of strings,
    arrays or [Object.prototype] (the code reads [type], [result],
    [session_id] and [is_error]).  [None] is a thrown TypeError (reading a
    property of [null]); [Some None] is [undefined]. *)
Definition get (j : json) (k : jsstring) : option (option json) :=
  match j with
  | JNull => None
  | JObject ms => Some (lookup k ms)
  | _ => Some None
  end.

(** *** Property order *)

Definition digits_value (s : jsstring) : N :=
  fold_left (fun acc c => acc * 10 + (c - 48)) s 0.

(** An array index is a canonical decimal below 2^32 - 1. *)
Definition key_index (k : jsstring) : option N :=
  match k with
  | [] => None
  | c :: rest =>
      if forallb is_digit k && (negb (c =? 48) || negb (nonempty rest))
         && (digits_value k <=? 4294967294)
      then Some (digits_value k) else None
  end.

Fixpoint replace_member (k : jsstring) (v : json) (ms : list (jsstring * json))
  : list (jsstring * json) :=
  match ms with
  | [] => []
  | (k', v') :: ms' =>
      if jsstring_eqb k k' then (k', v) :: ms' else (k', v') :: replace_member k v ms'
  end.

Fixpoint insert_index (k : jsstring) (i : N) (v : json) (ms : list (jsstring * json))
  : list (jsstring * json) :=
  match ms with
  | [] => [(k, v)]
  | (k', v') :: ms' =>
      match key_index k' with
      | Some j => if i <? j then (k, v) :: ms else (k', v') :: insert_index k i v ms'
      | None => (k, v) :: ms
      end
  end.

(** CreateDataProperty on an ordinary object: an existing key keeps its
    place; a new array index goes among the indices in ascending order,
    before every other key; any other new key goes last. *)
Definition obj_set (ms : list (jsstring * json)) (k : jsstring) (v : json)
  : list (jsstring * json) :=
  match lookup k ms with
  | Some _ => replace_member k v ms
  | None =>
      match key_index k with
      | Some i => insert_index k i v ms
      | None => ms ++ [(k, v)]
      end
  end.

(** *** JSON.stringify *)

Definition is_lead (c : code_unit) : bool := (55296 <=? c) && (c <=? 56319).
Definition is_trail (c : code_unit) : bool := (56320 <=? c) && (c <=? 57343).

(** [\uXXXX] with lower-case digits. *)
Definition unicode_escape (c : code_unit) : jsstring :=
  [92; 117; hex_digit ((c / 4096) mod 16); hex_digit ((c / 256) mod 16);
   hex_digit ((c / 16) mod 16); hex_digit (c mod 16)].

Definition escape_unit (c : code_unit) : jsstring :=
  if c =? 8 then [92; 98]
  else if c =? 9 then [92; 116]
  else if c =? 10 then [92; 110]
  else if c =? 12 then [92; 102]
  else if c =? 13 then [92; 114]
  else if c =? 34 then [92; 34]
  else if c =? 92 then [92; 92]
  else if c <? 32 then unicode_escape c
  else [c].

(** The characters between the quotes of QuoteJSONString: the escapes
    above, and a surrogate that is not part of a pair written as
    [\uXXXX]. *)
Fixpoint quote_body (s : jsstring) : jsstring :=
  match s with
  | [] => []
  | c :: rest =>
      if is_lead c then
        match rest with
        | d :: rest' =>
            if is_trail d then c :: d :: quote_body rest'
            else unicode_escape c ++ quote_body rest
        | [] => unicode_escape c
        end
      else if is_trail c then unicode_escape c ++ quote_body rest
      else escape_unit c ++ quote_body rest
  end.

(** [JSON.stringify(s)] for a string [s]. *)
Definition QuoteJSONString (s : jsstring) : jsstring :=
  34 :: quote_body s ++ [34].

Definition strip_trailing_zeros (ds : jsstring) : jsstring :=
  rev (drop_while (fun c => c =? 48) (rev ds)).

(** Number::toString. *)
Definition number_to_string (x : number) : jsstring :=
  if num_mant x =? 0 then [48]
  else
    let ds0 := digits_of_N (num_mant x) in
    let ds := strip_trailing_zeros ds0 in
    let k := Z.of_nat (List.length ds) in
    let n := (Z.of_nat (List.length ds0) + num_exp x)%Z in
    let body :=
      if ((k <=? n) && (n <=? 21))%Z then ds ++ repeat 48 (Z.to_nat (n - k))
      else if ((0 <? n) && (n <=? 21))%Z then
        firstn (Z.to_nat n) ds ++ 46 :: skipn (Z.to_nat n) ds
      else if ((-6 <? n) && (n <=? 0))%Z then
        48 :: 46 :: repeat 48 (Z.to_nat (- n)) ++ ds
      else
        let e := (n - 1)%Z in
        let es := (if (e <? 0)%Z then 45 else 43) :: digits_of_N (Z.abs_N e) in
        match ds with
        | [d] => d :: 101 :: es
        | d :: more => d :: 46 :: more ++ 101 :: es
        | [] => []
        end
    in
    if num_neg x then 45 :: body else body.

Fixpoint join_comma (parts : list jsstring) : jsstring :=
  match parts with
  | [] => []
  | [p] => p
  | p :: more => p ++ 44 :: join_comma more
  end.

(** [JSON.stringify(v)], no replacer, no indentation, for a value that
    came out of [JSON.parse]. *)
Fixpoint JSON_stringify (v : json) : jsstring :=
  match v with
  | JNull => str "null"
  | JBool true => str "true"
  | JBool false => str "false"
  | JNumber n => number_to_string n
  | JString s => QuoteJSONString s
  | JArray items => 91 :: join_comma (map JSON_stringify items) ++ [93]
  | JObject members =>
      123 :: join_comma
               (map (fun kv => match kv with
                               | (k, v') => QuoteJSONString k ++ 58 :: JSON_stringify v'
                               end) members)
          ++ [125]
  end.

(** *** JSON.parse

    The JSON grammar of ECMA-404 read one code unit at a time by a
    pushdown automaton: a stack of the arrays and objects that are open,
    and the position inside the value being read. *)

Inductive frame :=
| FArr (done : list json)                       (* elements, latest first *)
| FObj (members : list (jsstring * json)) (key : option jsstring).

Inductive strpos :=
| SNormal
| SEscape                                       (* after a backslash *)
| SHex (todo : nat) (v : N).                    (* inside \uXXXX *)

Inductive numphase :=
| NumMinus | NumZero | NumInt | NumDot | NumFrac | NumE | NumESign | NumEDigits.

Record numacc := { a_neg : bool; a_mant : N; a_frac : N; a_eneg : bool; a_exp : N }.

Inductive pos :=
| PValue                                        (* a value must start *)
| PArrStart                                     (* after [ *)
| PObjStart                                     (* after { *)
| PObjKey                                       (* after , in an object *)
| PColon                                        (* after a key *)
| PAfter                                        (* after a value, inside [ ] or { } *)
| PDone (v : json)                              (* after the top-level value *)
| PString (iskey : bool) (acc : jsstring) (sp : strpos)   (* acc latest first *)
| PLit (rest : jsstring) (v : json)             (* inside true, false, null *)
| PNum (ph : numphase) (a : numacc).

Definition state := (list frame * pos)%type.

Definition is_json_ws (c : code_unit) : bool :=
  (c =? 9) || (c =? 10) || (c =? 13) || (c =? 32).

Definition number_of (a : numacc) : number :=
  {| num_neg := a_neg a;
     num_mant := a_mant a;
     num_exp := ((if a_eneg a then - Z.of_N (a_exp a) else Z.of_N (a_exp a))
                 - Z.of_N (a_frac a))%Z |}.

Definition num_accepting (ph : numphase) : bool :=
  match ph with
  | NumZero | NumInt | NumFrac | NumEDigits => true
  | _ => false
  end.

(** A value is complete: it is the result, or goes into the open array
    or object. *)
Definition finish (stk : list frame) (v : json) : option state :=
  match stk with
  | [] => Some ([], PDone v)
  | FArr done :: stk' => Some (FArr (v :: done) :: stk', PAfter)
  | FObj ms (Some k) :: stk' => Some (FObj (obj_set ms k v) None :: stk', PAfter)
  | FObj _ None :: _ => None
  end.

Definition acc0 (neg : bool) (m : N) : numacc :=
  {| a_neg := neg; a_mant := m; a_frac := 0; a_eneg := false; a_exp := 0 |}.

(** The first code unit of a value. *)
Definition start_value (stk : list frame) (c : code_unit) : option state :=
  if c =? 123 then Some (FObj [] None :: stk, PObjStart)
  else if c =? 91 then Some (FArr [] :: stk, PArrStart)
  else if c =? 34 then Some (stk, PString false [] SNormal)
  else if c =? 45 then Some (stk, PNum NumMinus (acc0 true 0))
  else if c =? 48 then Some (stk, PNum NumZero (acc0 false 0))
  else if is_digit c then Some (stk, PNum NumInt (acc0 false (c - 48)))
  else if c =? 116 then Some (stk, PLit (str "rue") (JBool true))
  else if c =? 102 then Some (stk, PLit (str "alse") (JBool false))
  else if c =? 110 then Some (stk, PLit (str "ull") JNull)
  else None.

Definition step_string (stk : list frame) (iskey : bool) (acc : jsstring)
    (sp : strpos) (c : code_unit) : option state :=
  match sp with
  | SNormal =>
      if c =? 34 then
        if iskey then
          match stk with
          | FObj ms None :: stk' => Some (FObj ms (Some (rev acc)) :: stk', PColon)
          | _ => None
          end
        else finish stk (JString (rev acc))
      else if c =? 92 then Some (stk, PString iskey acc SEscape)
      else if c <? 32 then None
      else Some (stk, PString iskey (c :: acc) SNormal)
  | SEscape =>
      let lit d := Some (stk, PString iskey (d :: acc) SNormal) in
      if c =? 34 then lit 34
      else if c =? 92 then lit 92
      else if c =? 47 then lit 47
      else if c =? 98 then lit 8
      else if c =? 102 then lit 12
      else if c =? 110 then lit 10
      else if c =? 114 then lit 13
      else if c =? 116 then lit 9
      else if c =? 117 then Some (stk, PString iskey acc (SHex 4 0))
      else None
  | SHex todo v =>
      match hex_value c, todo with
      | Some d, 1%nat => Some (stk, PString iskey ((v * 16 + d) :: acc) SNormal)
      | Some d, S todo' => Some (stk, PString iskey acc (SHex todo' (v * 16 + d)))
      | _, _ => None
      end
  end.

(** Every position except the inside of a number. *)
Definition step_other (stk : list frame) (p : pos) (c : code_unit) : option state :=
  match p with
  | PValue => if is_json_ws c then Some (stk, PValue) else start_value stk c
  | PArrStart =>
      if is_json_ws c then Some (stk, PArrStart)
      else if c =? 93 then
        match stk with
        | FArr _ :: stk' => finish stk' (JArray [])
        | _ => None
        end
      else start_value stk c
  | PObjStart =>
      if is_json_ws c then Some (stk, PObjStart)
      else if c =? 125 then
        match stk with
        | FObj _ None :: stk' => finish stk' (JObject [])
        | _ => None
        end
      else if c =? 34 then Some (stk, PString true [] SNormal)
      else None
  | PObjKey =>
      if is_json_ws c then Some (stk, PObjKey)
      else if c =? 34 then Some (stk, PString true [] SNormal)
      else None
  | PColon =>
      if is_json_ws c then Some (stk, PColon)
      else if c =? 58 then Some (stk, PValue)
      else None
  | PAfter =>
      if is_json_ws c then Some (stk, PAfter)
      else
        match stk with
        | FArr done :: stk' =>
            if c =? 44 then Some (stk, PValue)
            else if c =? 93 then finish stk' (JArray (rev done))
            else None
        | FObj ms None :: stk' =>
            if c =? 44 then Some (stk, PObjKey)
            else if c =? 125 then finish stk' (JObject ms)
            else None
        | _ => None
        end
  | PDone v => if is_json_ws c then Some (stk, PDone v) else None
  | PString iskey acc sp => step_string stk iskey acc sp c
  | PLit rest v =>
      match rest with
      | c' :: rest' =>
          if c =? c' then
            match rest' with
            | [] => finish stk v
            | _ => Some (stk, PLit rest' v)
            end
          else None
      | [] => None
      end
  | PNum _ _ => None
  end.

Definition is_e (c : code_unit) : bool := (c =? 101) || (c =? 69).

(** Inside a number: [Some (ph', a')] when [c] continues it. *)
Definition step_num (ph : numphase) (a : numacc) (c : code_unit)
  : option (numphase * numacc) :=
  let d := c - 48 in
  let mant1 := {| a_neg := a_neg a; a_mant := a_mant a * 10 + d; a_frac := a_frac a;
                  a_eneg := a_eneg a; a_exp := a_exp a |} in
  let frac1 := {| a_neg := a_neg a; a_mant := a_mant a * 10 + d; a_frac := a_frac a + 1;
                  a_eneg := a_eneg a; a_exp := a_exp a |} in
  let exp1 := {| a_neg := a_neg a; a_mant := a_mant a; a_frac := a_frac a;
                 a_eneg := a_eneg a; a_exp := a_exp a * 10 + d |} in
  let eneg1 := {| a_neg := a_neg a; a_mant := a_mant a; a_frac := a_frac a;
                  a_eneg := true; a_exp := a_exp a |} in
  match ph with
  | NumMinus =>
      if c =? 48 then Some (NumZero, a)
      else if is_digit c then Some (NumInt, mant1)
      else None
  | NumZero =>
      if c =? 46 then Some (NumDot, a)
      else if is_e c then Some (NumE, a)
      else None
  | NumInt =>
      if is_digit c then Some (NumInt, mant1)
      else if c =? 46 then Some (NumDot, a)
      else if is_e c then Some (NumE, a)
      else None
  | NumDot => if is_digit c then Some (NumFrac, frac1) else None
  | NumFrac =>
      if is_digit c then Some (NumFrac, frac1)
      else if is_e c then Some (NumE, a)
      else None
  | NumE =>
      if c =? 43 then Some (NumESign, a)
      else if c =? 45 then Some (NumESign, eneg1)
      else if is_digit c then Some (NumEDigits, exp1)
      else None
  | NumESign => if is_digit c then Some (NumEDigits, exp1) else None
  | NumEDigits => if is_digit c then Some (NumEDigits, exp1) else None
  end.

(** One code unit.  A number ends at the first code unit that cannot
    continue it; that code unit is then read after the number. *)
Definition step (st : state) (c : code_unit) : option state :=
  match st with
  | (stk, PNum ph a) =>
      match step_num ph a c with
      | Some (ph', a') => Some (stk, PNum ph' a')
      | None =>
          if num_accepting ph then
            match finish stk (JNumber (number_of a)) with
            | Some (stk', p') => step_other stk' p' c
            | None => None
            end
          else None
      end
  | (stk, p) => step_other stk p c
  end.

Fixpoint run (s : jsstring) (st : state) : option state :=
  match s with
  | [] => Some st
  | c :: s' =>
      match step st c with
      | Some st' => run s' st'
      | None => None
      end
  end.

(** At the end of the text: the top-level value, if it is complete. *)
Definition result (st : state) : option json :=
  match st with
  | ([], PDone v) => Some v
  | ([], PNum ph a) => if num_accepting ph then Some (JNumber (number_of a)) else None
  | _ => None
  end.

(** [JSON.parse(text)], no reviver; [None] is a thrown SyntaxError. *)
Definition JSON_parse (text : jsstring) : option json :=
  match run text ([], PValue) with
  | Some st => result st
  | None => None
  end.

End Json.
Export Json.

(* ===================================================================== *)
(** ** Word splitting by the shell                                         *)
(* ===================================================================== *)

Module Bash.

(** How [/bin/bash -c] splits the text of one simple command into words:
    blanks separate words; inside double quotes a backslash escapes only
    [$], the backquote, the double quote, the backslash and the newline,
    and stays in the word before anything else; inside single quotes
    nothing is special; [<] introduces a redirection of the standard
    input.  Expansions ([$], backquote), globbing, and the operators and
    reserved characters of the shell are outside this fragment: on them the
    reader gives [None], as it does on an unterminated quote. *)

Inductive token :=
| Word (w : jsstring)
| RedirIn.

Inductive mode :=
| Plain | PlainBackslash | Double | DoubleBackslash | Single.

Record state := {
  st_mode : mode;
  st_cur : option jsstring;      (* the word being read, latest first *)
  st_toks : list token           (* the tokens read, latest first *)
}.

Definition is_blank (c : code_unit) : bool := (c =? 32) || (c =? 9).

(** Code units that stand for themselves outside quotes: letters, digits
    and [% + , - . / : @ _]. *)
Definition is_plain (c : code_unit) : bool :=
  ((48 <=? c) && (c <=? 58)) || ((64 <=? c) && (c <=? 90))
  || ((97 <=? c) && (c <=? 122))
  || (c =? 37) || ((43 <=? c) && (c <=? 47)) || (c =? 95).

Definition push (c : code_unit) (cur : option jsstring) : option jsstring :=
  match cur with
  | Some w => Some (c :: w)
  | None => Some [c]
  end.

Definition open_word (cur : option jsstring) : option jsstring :=
  match cur with
  | Some w => Some w
  | None => Some []
  end.

Definition flush (cur : option jsstring) (toks : list token) : list token :=
  match cur with
  | Some w => Word (rev w) :: toks
  | None => toks
  end.

Definition step (st : state) (c : code_unit) : option state :=
  let cur := st_cur st in
  let toks := st_toks st in
  match st_mode st with
  | Plain =>
      if is_blank c then Some {| st_mode := Plain; st_cur := None; st_toks := flush cur toks |}
      else if c =? 34 then Some {| st_mode := Double; st_cur := open_word cur; st_toks := toks |}
      else if c =? 39 then Some {| st_mode := Single; st_cur := open_word cur; st_toks := toks |}
      else if c =? 92 then Some {| st_mode := PlainBackslash; st_cur := cur; st_toks := toks |}
      else if c =? 60 then
        match cur with
        | None => Some {| st_mode := Plain; st_cur := None; st_toks := RedirIn :: toks |}
        | Some _ => None
        end
      else if is_plain c then Some {| st_mode := Plain; st_cur := push c cur; st_toks := toks |}
      else None
  | PlainBackslash =>
      if c =? 10 then Some {| st_mode := Plain; st_cur := cur; st_toks := toks |}
      else Some {| st_mode := Plain; st_cur := push c cur; st_toks := toks |}
  | Double =>
      if c =? 34 then Some {| st_mode := Plain; st_cur := cur; st_toks := toks |}
      else if c =? 92 then Some {| st_mode := DoubleBackslash; st_cur := cur; st_toks := toks |}
      else if (c =? 36) || (c =? 96) then None
      else Some {| st_mode := Double; st_cur := push c cur; st_toks := toks |}
  | DoubleBackslash =>
      if (c =? 36) || (c =? 96) || (c =? 34) || (c =? 92) then
        Some {| st_mode := Double; st_cur := push c cur; st_toks := toks |}
      else if c =? 10 then Some {| st_mode := Double; st_cur := cur; st_toks := toks |}
      else Some {| st_mode := Double; st_cur := push c (push 92 cur); st_toks := toks |}
  | Single =>
      if c =? 39 then Some {| st_mode := Plain; st_cur := cur; st_toks := toks |}
      else Some {| st_mode := Single; st_cur := push c cur; st_toks := toks |}
  end.

Fixpoint run (s : jsstring) (st : state) : option state :=
  match s with
  | [] => Some st
  | c :: s' =>
      match step st c with
      | Some st' => run s' st'
      | None => None
      end
  end.

Definition init : state := {| st_mode := Plain; st_cur := None; st_toks := [] |}.

Definition tokens (line : jsstring) : option (list token) :=
  match run line init with
  | Some st =>
      match st_mode st with
      | Plain => Some (rev (flush (st_cur st) (st_toks st)))
      | _ => None
      end
  | None => None
  end.

(** What the shell starts: the argument vector and the file the standard
    input is redirected from. *)
Record spawn := { argv : list jsstring; stdin : option jsstring }.

Fixpoint simple_command (toks : list token) : option spawn :=
  match toks with
  | [] => Some {| argv := []; stdin := None |}
  | Word w :: rest =>
      match simple_command rest with
      | Some sp => Some {| argv := w :: argv sp; stdin := stdin sp |}
      | None => None
      end
  | RedirIn :: Word f :: rest =>
      match simple_command rest with
      | Some sp => Some {| argv := argv sp;
                           stdin := match stdin sp with Some g => Some g | None => Some f end |}
      | None => None
      end
  | RedirIn :: _ => None
  end.

Definition parse (line : jsstring) : option spawn :=
  match tokens line with
  | Some toks => simple_command toks
  | None => None
  end.

End Bash.

(* ===================================================================== *)
(** ** src/claude-service.ts                                               *)
(* ===================================================================== *)

Module Service.

Record ExecOptions := { exec_cwd : option jsstring }.
Record ExecResult := { stdout : jsstring; stderr : jsstring }.

(** A thrown [Error]; the code reads only its message. *)
Record JsError := { message : jsstring }.

Inductive Completion (A : Type) :=
| Return (a : A)
| Throw (e : JsError).
Arguments Return {A} a.
Arguments Throw {A} e.

(** [ExecFunction]: the promise resolves with the output or rejects. *)
Definition ExecFunction := jsstring -> ExecOptions -> Completion ExecResult.

Record ExecCall := { call_command : jsstring; call_options : ExecOptions }.

(** An async function of the service: it runs from the calls made to the
    execution function so far, and ends with the calls made and either a
    value or a thrown error. *)
Definition Run (A : Type) := list ExecCall -> list ExecCall * Completion A.

Definition ret {A} (a : A) : Run A := fun calls => (calls, Return a).
Definition throw {A} (e : JsError) : Run A := fun calls => (calls, Throw e).

Definition bind {A B} (m : Run A) (k : A -> Run B) : Run B :=
  fun calls =>
    match m calls with
    | (calls', Return a) => k a calls'
    | (calls', Throw e) => (calls', Throw e)
    end.

(** [try { m } catch (error) { h error }]. *)
Definition try_catch {A} (m : Run A) (h : JsError -> Run A) : Run A :=
  fun calls =>
    match m calls with
    | (calls', Return a) => (calls', Return a)
    | (calls', Throw e) => h e calls'
    end.

(** [await execFn(command, options)]. *)
Definition call_exec (execFn : ExecFunction) (command : jsstring) (options : ExecOptions)
  : Run ExecResult :=
  fun calls =>
    (calls ++ [{| call_command := command; call_options := options |}],
     execFn command options).

Declare Scope run_scope.
Delimit Scope run_scope with run.
Notation "x <- m ;; k" := (bind m (fun x => k))
  (at level 61, m at next level, right associativity) : run_scope.

(** The command line [defaultExecFn] hands to [/bin/bash]: the standard
    input is redirected from [/dev/null]. *)
Definition fullCmd (cmd : jsstring) : jsstring := cmd ++ str " < /dev/null".

(** The result of [parseClaudeJsonResponse].  The fields are declared
    [string], [string | null] and [boolean]; at run time they hold
    whatever the JSON text had under [result], [session_id] and
    [is_error]. *)
Record Parsed := { response : json; sessionId : json; isError : json }.

(** The [catch] branch. *)
Definition raw_output (stdout : jsstring) : Parsed :=
  {| response := JString (trim stdout); sessionId := JNull; isError := JBool false |}.

(** The [try] block; [None] when it throws: [JSON.parse] on a text that
    is not JSON, or the first property read of the log call, [json.type],
    on [null]. *)
Definition parse_attempt (stdout : jsstring) : option Parsed :=
  match JSON_parse stdout with
  | None => None
  | Some json =>
      match get json (str "type"), get json (str "is_error"),
            get json (str "session_id"), get json (str "result") with
      | Some _, Some is_error, Some session_id, Some result =>
          Some {| response := js_or result (JString (JSON_stringify json));
                  sessionId := js_or session_id JNull;
                  isError := js_or is_error (JBool false) |}
      | _, _, _, _ => None
      end
  end.

Definition parseClaudeJsonResponse (stdout : jsstring) : Parsed :=
  match parse_attempt stdout with
  | Some r => r
  | None => raw_output stdout
  end.

Record ClaudeOptions := {
  model : option jsstring;
  systemPrompt : option jsstring;
  cwd : option jsstring
}.

(** A call without [options]. *)
Definition no_options : ClaudeOptions :=
  {| model := None; systemPrompt := None; cwd := None |}.

Record ClaudeResponse := { res_response : json; res_sessionId : json }.

(** [command += ` --model ${options.model}`] when the model is truthy. *)
Definition with_model (options : ClaudeOptions) (command : jsstring) : jsstring :=
  match model options with
  | Some m => if nonempty m then command ++ str " --model " ++ m else command
  | None => command
  end.

(** [command += ` <flag> ${JSON.stringify(options.systemPrompt)}`] when
    the system prompt is truthy. *)
Definition with_system_prompt (flag : jsstring) (options : ClaudeOptions)
    (command : jsstring) : jsstring :=
  match systemPrompt options with
  | Some sp =>
      if nonempty sp then command ++ flag ++ QuoteJSONString sp else command
  | None => command
  end.

(** The command line of [executeClaude] (lines 132-142). *)
Definition claude_command (prompt : jsstring) (options : ClaudeOptions) : jsstring :=
  let safePrompt := QuoteJSONString prompt in
  let command := str "claude -p " ++ safePrompt ++ str " --output-format json" in
  let command := with_model options command in
  with_system_prompt (str " --system-prompt ") options command.

(** The command line of [executeClaudeReply] (lines 176-197). *)
Definition reply_command (prompt : jsstring) (sessionId : option jsstring)
    (options : ClaudeOptions) : jsstring :=
  let safePrompt := QuoteJSONString prompt in
  let command :=
    match sessionId with
    | Some id =>
        if nonempty id then
          str "claude -r " ++ id ++ str " -p " ++ safePrompt ++ str " --output-format json"
        else str "claude -c -p " ++ safePrompt ++ str " --output-format json"
    | None => str "claude -c -p " ++ safePrompt ++ str " --output-format json"
    end in
  let command := with_model options command in
  with_system_prompt (str " --append-system-prompt ") options command.

Local Open Scope run_scope.

Definition executeClaude (execFn : ExecFunction) (prompt : jsstring)
    (options : ClaudeOptions) : Run ClaudeResponse :=
  let command := claude_command prompt options in
  out <- call_exec execFn command {| exec_cwd := cwd options |} ;;
  let p := parseClaudeJsonResponse (stdout out) in
  ret {| res_response := response p; res_sessionId := sessionId p |}.

(** [newSessionId || sessionId || null]. *)
Definition finalSessionId (newSessionId : json) (sessionId : option jsstring) : json :=
  if truthy newSessionId then newSessionId
  else match sessionId with
       | Some id => if nonempty id then JString id else JNull
       | None => JNull
       end.

Definition executeClaudeReply (execFn : ExecFunction) (prompt : jsstring)
    (sessionId0 : option jsstring) (options : ClaudeOptions) : Run ClaudeResponse :=
  let command := reply_command prompt sessionId0 options in
  out <- call_exec execFn command {| exec_cwd := cwd options |} ;;
  let p := parseClaudeJsonResponse (stdout out) in
  ret {| res_response := response p;
         res_sessionId := finalSessionId (sessionId p) sessionId0 |}.

End Service.

(* ===================================================================== *)
(** ** handlers.ts                                                         *)
(* ===================================================================== *)

Module Handlers.
Import Service.
Local Open Scope run_scope.

(** [ToolResult]: the text of the one content item, the optional error
    flag, and the session identifier under [_meta] when there is one. *)
Record ToolResult := {
  content_text : json;
  tr_isError : option bool;
  meta_sessionId : option json
}.

Record ClaudeArgs := {
  a_prompt : jsstring;
  a_model : option jsstring;
  a_systemPrompt : option jsstring;
  a_cwd : option jsstring
}.

Record ClaudeReplyArgs := {
  r_prompt : jsstring;
  r_sessionId : option jsstring;
  r_model : option jsstring;
  r_systemPrompt : option jsstring;
  r_cwd : option jsstring
}.

(** [...(sessionId && { _meta: { sessionId } })]. *)
Definition meta_of (sessionId : json) : option json :=
  if truthy sessionId then Some sessionId else None.

Definition handleClaude (execFn : ExecFunction) (args : ClaudeArgs) : Run ToolResult :=
  let options := {| model := a_model args; systemPrompt := a_systemPrompt args;
                    cwd := a_cwd args |} in
  r <- executeClaude execFn (a_prompt args) options ;;
  ret {| content_text := res_response r; tr_isError := None;
         meta_sessionId := meta_of (res_sessionId r) |}.

Definition handleClaudeReply (execFn : ExecFunction) (args : ClaudeReplyArgs)
  : Run ToolResult :=
  let options := {| model := r_model args; systemPrompt := r_systemPrompt args;
                    cwd := r_cwd args |} in
  r <- executeClaudeReply execFn (r_prompt args) (r_sessionId args) options ;;
  ret {| content_text := res_response r; tr_isError := None;
         meta_sessionId := meta_of (res_sessionId r) |}.

(** [args as unknown as ClaudeArgs]: the same object, read without its
    [sessionId]. *)
Definition as_ClaudeArgs (args : ClaudeReplyArgs) : ClaudeArgs :=
  {| a_prompt := r_prompt args; a_model := r_model args;
     a_systemPrompt := r_systemPrompt args; a_cwd := r_cwd args |}.

Definition error_result (error : JsError) : ToolResult :=
  {| content_text := JString (str "Error executing claude: " ++ message error);
     tr_isError := Some true;
     meta_sessionId := None |}.

(** The [try] block returns from the function for a known tool
    ([Some]), or falls through to the [throw] after it ([None]). *)
Definition handleToolCall (execFn : ExecFunction) (name : jsstring)
    (args : ClaudeReplyArgs) : Run ToolResult :=
  returned <-
    try_catch
      (if jsstring_eqb name (str "chat") then
         r <- handleClaude execFn (as_ClaudeArgs args) ;; ret (Some r)
       else if jsstring_eqb name (str "chat-reply") then
         r <- handleClaudeReply execFn args ;; ret (Some r)
       else ret None)
      (fun error => ret (Some (error_result error))) ;;
  match returned with
  | Some r => ret r
  | None => throw {| message := str "Unknown tool: " ++ name |}
  end.

End Handlers.

(* ===================================================================== *)
(** ** Notions used in the statements                                      *)
(* ===================================================================== *)

Module Notions.
Import Service Handlers.

(** The structured output shape [{ result, session_id, is_error }]. *)
Definition claude_record (result session_id : jsstring) (is_error : bool) : json :=
  JObject [(str "result", JString result);
           (str "session_id", JString session_id);
           (str "is_error", JBool is_error)].

(** Putting a member into an object. *)
Definition put_member (acc : list (jsstring * json)) (kv : jsstring * json)
  : list (jsstring * json) :=
  obj_set acc (fst kv) (snd kv).

(** The text of one member. *)
Definition member_text (kv : jsstring * json) : jsstring :=
  match kv with
  | (k, v) => QuoteJSONString k ++ 58 :: JSON_stringify v
  end.

(** A value without numbers whose objects have their members in property
    order, each key once: putting the members into an empty object one
    after the other gives the same members back. *)
Fixpoint canonical (v : json) : Prop :=
  match v with
  | JNumber _ => False
  | JArray items =>
      (fix all (l : list json) : Prop :=
         match l with
         | [] => True
         | x :: l' => canonical x /\ all l'
         end) items
  | JObject members =>
      fold_left put_member members [] = members
      /\ (fix all (l : list (jsstring * json)) : Prop :=
            match l with
            | [] => True
            | (_, x) :: l' => canonical x /\ all l'
            end) members
  | _ => True
  end.


(** Induction on a value, with the property known of the items of an
    array and of the values of an object. *)
Section JsonInduction.
Variable P : json -> Prop.
Hypothesis Hnull : P JNull.
Hypothesis Hbool : forall b, P (JBool b).
Hypothesis Hnumber : forall n, P (JNumber n).
Hypothesis Hstring : forall s, P (JString s).
Hypothesis Harray : forall items, Forall P items -> P (JArray items).
Hypothesis Hobject : forall members, Forall (fun kv => P (snd kv)) members -> P (JObject members).

Fixpoint json_nested_ind (v : json) : P v :=
  match v with
  | JNull => Hnull
  | JBool b => Hbool b
  | JNumber n => Hnumber n
  | JString s => Hstring s
  | JArray items =>
      Harray items
        ((fix go (l : list json) : Forall P l :=
            match l with
            | [] => Forall_nil P
            | x :: l' => Forall_cons x (json_nested_ind x) (go l')
            end) items)
  | JObject members =>
      Hobject members
        ((fix go (l : list (jsstring * json)) : Forall (fun kv => P (snd kv)) l :=
            match l with
            | [] => Forall_nil _
            | kv :: l' =>
                Forall_cons (P := fun kv => P (snd kv)) kv
                  (json_nested_ind (snd kv)) (go l')
            end) members)
  end.

End JsonInduction.

(** The text of [v], wherever a value may start, is read as [v]. *)
Definition reads_back (v : json) : Prop :=
  forall rest stk,
    Json.run (JSON_stringify v ++ rest) (stk, PValue) =
    match finish stk v with
    | Some st => Json.run rest st
    | None => None
    end.

(** A text that [JSON.stringify] quotes the way the double quotes of the
    shell read back: no control character, no [$], no backquote, and no
    surrogate outside a pair. *)
Definition shell_safe_unit (c : code_unit) : bool :=
  (32 <=? c) && negb (c =? 36) && negb (c =? 96) && negb (is_lead c || is_trail c).

Fixpoint shell_safe (s : jsstring) : bool :=
  match s with
  | [] => true
  | c :: rest =>
      if is_lead c then
        match rest with
        | d :: rest' => is_trail d && shell_safe rest'
        | [] => false
        end
      else shell_safe_unit c && shell_safe rest
  end.

(** A text free of what the shell expands between double quotes: [$] and
    the backquote. *)
Definition no_expansion (s : jsstring) : bool :=
  forallb (fun c => negb ((c =? 36) || (c =? 96))) s.

(** What the shell reads back from [JSON.stringify s] between double
    quotes, for [s] free of expansions: an escaped double quote or
    backslash gives the character back; every other escape
    [JSON.stringify] writes (for a control character, for a surrogate
    outside a pair) stays in the word as it is, backslash first. *)
Fixpoint shell_image (s : jsstring) : jsstring :=
  match s with
  | [] => []
  | c :: rest =>
      if is_lead c then
        match rest with
        | d :: rest' =>
            if is_trail d then c :: d :: shell_image rest'
            else unicode_escape c ++ shell_image rest
        | [] => unicode_escape c
        end
      else if is_trail c then unicode_escape c ++ shell_image rest
      else if c <? 32 then escape_unit c ++ shell_image rest
      else c :: shell_image rest
  end.

(** A simple token: not empty, and made of code units that stand for
    themselves outside quotes. *)
Definition plain_token (s : jsstring) : bool := nonempty s && forallb Bash.is_plain s.

(** The options this model of the shell covers: the model, when given,
    is empty or a simple token; the system prompt, when given, is free of
    expansions. *)
Definition tame (options : ClaudeOptions) : bool :=
  match model options with
  | Some m => negb (nonempty m) || plain_token m
  | None => true
  end
  && match systemPrompt options with
     | Some sp => no_expansion sp
     | None => true
     end.

(** The identifier, when given, is empty or a simple token. *)
Definition tame_id (sessionId : option jsstring) : bool :=
  match sessionId with
  | Some id => negb (nonempty id) || plain_token id
  | None => true
  end.

(** One of the request's texts is itself the word [w]. *)
Definition names_word (w prompt : jsstring) (options : ClaudeOptions) : bool :=
  jsstring_eqb prompt w
  || match model options with Some m => jsstring_eqb m w | None => false end
  || match systemPrompt options with Some sp => jsstring_eqb sp w | None => false end.

(** The pieces a command line is put together from: a bare word, or a
    text quoted by [JSON.stringify]. *)
Inductive piece :=
| Bare (w : jsstring)
| Quoted (s : jsstring).

Definition piece_text (p : piece) : jsstring :=
  match p with Bare w => w | Quoted s => QuoteJSONString s end.

Definition piece_word (p : piece) : jsstring :=
  match p with Bare w => w | Quoted s => shell_image s end.

Definition piece_ok (p : piece) : bool :=
  match p with Bare w => plain_token w | Quoted s => no_expansion s end.

(** The pieces with one blank between them. *)
Fixpoint render (ps : list piece) : jsstring :=
  match ps with
  | [] => []
  | [p] => piece_text p
  | p :: more => piece_text p ++ 32 :: render more
  end.

Definition model_pieces (options : ClaudeOptions) : list piece :=
  match model options with
  | Some m => if nonempty m then [Bare (str "--model"); Bare m] else []
  | None => []
  end.

Definition system_prompt_pieces (flag : jsstring) (options : ClaudeOptions) : list piece :=
  match systemPrompt options with
  | Some sp => if nonempty sp then [Bare flag; Quoted sp] else []
  | None => []
  end.

Definition claude_pieces (prompt : jsstring) (options : ClaudeOptions) : list piece :=
  [Bare (str "claude"); Bare (str "-p"); Quoted prompt;
   Bare (str "--output-format"); Bare (str "json")]
  ++ model_pieces options ++ system_prompt_pieces (str "--system-prompt") options.

Definition reply_pieces (prompt : jsstring) (sessionId : option jsstring)
    (options : ClaudeOptions) : list piece :=
  (if truthy_opt sessionId
   then [Bare (str "claude"); Bare (str "-r");
         Bare (match sessionId with Some id => id | None => [] end)]
   else [Bare (str "claude"); Bare (str "-c")])
  ++ [Bare (str "-p"); Quoted prompt; Bare (str "--output-format"); Bare (str "json")]
  ++ model_pieces options ++ system_prompt_pieces (str "--append-system-prompt") options.

(** The argument vectors of the three forms of the command-line grammar
    ([claude -p prompt ...], [claude -c -p prompt ...],
    [claude -r id -p prompt ...]); a quoted text is there as the shell
    reads it back. *)
Definition model_args (options : ClaudeOptions) : list jsstring :=
  match model options with
  | Some m => if nonempty m then [str "--model"; m] else []
  | None => []
  end.

Definition system_prompt_args (flag : jsstring) (options : ClaudeOptions) : list jsstring :=
  match systemPrompt options with
  | Some sp => if nonempty sp then [flag; shell_image sp] else []
  | None => []
  end.

Definition claude_args (prompt : jsstring) (options : ClaudeOptions) : list jsstring :=
  [str "claude"; str "-p"; shell_image prompt; str "--output-format"; str "json"]
  ++ model_args options ++ system_prompt_args (str "--system-prompt") options.

Definition reply_args (prompt : jsstring) (sessionId : option jsstring)
    (options : ClaudeOptions) : list jsstring :=
  match sessionId with
  | Some id =>
      if nonempty id then [str "claude"; str "-r"; id] else [str "claude"; str "-c"]
  | None => [str "claude"; str "-c"]
  end
  ++ [str "-p"; shell_image prompt; str "--output-format"; str "json"]
  ++ model_args options ++ system_prompt_args (str "--append-system-prompt") options.

(** What [defaultExecFn] makes the shell start for a command line. *)
Definition spawned (command : jsstring) : option Bash.spawn :=
  Bash.parse (fullCmd command).

Definition to_dev_null (args : list jsstring) : Bash.spawn :=
  {| Bash.argv := args; Bash.stdin := Some (str "/dev/null") |}.

(** The states of the shell reader between and inside double quotes. *)
Definition in_double (w : jsstring) (toks : list Bash.token) : Bash.state :=
  {| Bash.st_mode := Bash.Double; Bash.st_cur := Some w; Bash.st_toks := toks |}.

Definition in_plain (cur : option jsstring) (toks : list Bash.token) : Bash.state :=
  {| Bash.st_mode := Bash.Plain; Bash.st_cur := cur; Bash.st_toks := toks |}.

(** The one call an operation makes. *)
Definition the_call (command : jsstring) (options : ClaudeOptions) : ExecCall :=
  {| call_command := command; call_options := {| exec_cwd := cwd options |} |}.

(** The options [handleClaude] and [handleClaudeReply] build from the
    arguments. *)
Definition options_of (args : ClaudeReplyArgs) : ClaudeOptions :=
  {| model := r_model args; systemPrompt := r_systemPrompt args; cwd := r_cwd args |}.

End Notions.
Export Notions.

(* ===================================================================== *)
(** * Lemmas                                                               *)
(* ===================================================================== *)

Import Service Handlers.

(** ** Strings *)

Lemma jsstring_eqb_eq (a b : jsstring) : jsstring_eqb a b = true <-> a = b.
Proof.
  revert b. induction a as [|x a IH]; intros [|y b]; simpl; split; intro H;
    try reflexivity; try discriminate.
  - apply andb_true_iff in H as [Hx Hab]. apply N.eqb_eq in Hx.
    apply IH in Hab. congruence.
  - injection H as -> ->. rewrite N.eqb_refl. simpl. now apply IH.
Qed.

Lemma jsstring_eqb_refl (a : jsstring) : jsstring_eqb a a = true.
Proof. now apply jsstring_eqb_eq. Qed.

Lemma jsstring_eqb_neq (a b : jsstring) : a <> b -> jsstring_eqb a b = false.
Proof.
  intro H. destruct (jsstring_eqb a b) eqn:E; [|reflexivity].
  apply jsstring_eqb_eq in E. contradiction.
Qed.

Section DropWhile.
Variable p : code_unit -> bool.

Lemma drop_while_clean s : starts_clean p (drop_while p s).
Proof.
  induction s as [|c s IH]; simpl; [exact I|].
  destruct (p c) eqn:E; [exact IH | exact E].
Qed.

Lemma drop_while_id s : starts_clean p s -> drop_while p s = s.
Proof. destruct s as [|c s]; simpl; [reflexivity|]. now intros ->. Qed.

Lemma drop_while_suffix s : exists pre, s = pre ++ drop_while p s.
Proof.
  induction s as [|c s [pre IH]]; simpl.
  - now exists [].
  - destruct (p c).
    + exists (c :: pre). simpl. now f_equal.
    + now exists [].
Qed.

Lemma starts_clean_prefix s t : starts_clean p (s ++ t) -> starts_clean p s.
Proof. destruct s; simpl; auto. Qed.

End DropWhile.

Lemma trimEnd_prefix s : exists t, s = trimEnd s ++ t.
Proof.
  unfold trimEnd.
  destruct (drop_while_suffix is_js_whitespace (rev s)) as [pre H].
  exists (rev pre).
  rewrite <- rev_app_distr, <- H. symmetry. apply rev_involutive.
Qed.

Lemma trimEnd_idem s : trimEnd (trimEnd s) = trimEnd s.
Proof.
  unfold trimEnd. rewrite rev_involutive.
  f_equal. apply drop_while_id, drop_while_clean.
Qed.

Lemma trim_idem s : trim (trim s) = trim s.
Proof.
  unfold trim.
  assert (H : trimStart (trimEnd (trimStart s)) = trimEnd (trimStart s)).
  { unfold trimStart at 1. apply drop_while_id.
    destruct (trimEnd_prefix (trimStart s)) as [t Ht].
    apply starts_clean_prefix with (t := t). rewrite <- Ht.
    apply drop_while_clean. }
  rewrite H. apply trimEnd_idem.
Qed.

(** ** The JSON reader *)

Lemma json_run_app s1 s2 st :
  Json.run (s1 ++ s2) st =
  match Json.run s1 st with Some st' => Json.run s2 st' | None => None end.
Proof.
  revert st. induction s1 as [|c s1 IH]; intro st; simpl; [reflexivity|].
  destruct (Json.step st c); [apply IH | reflexivity].
Qed.

Lemma hex_value_digit d : d < 16 -> hex_value (hex_digit d) = Some d.
Proof.
  intro H.
  assert (C : d = 0 \/ d = 1 \/ d = 2 \/ d = 3 \/ d = 4 \/ d = 5 \/ d = 6 \/ d = 7 \/
              d = 8 \/ d = 9 \/ d = 10 \/ d = 11 \/ d = 12 \/ d = 13 \/ d = 14 \/ d = 15)
    by lia.
  repeat (destruct C as [-> | C]; [reflexivity|]). subst. reflexivity.
Qed.

Lemma hex4_value c :
  c < 65536 ->
  (((c / 4096) mod 16 * 16 + (c / 256) mod 16) * 16 + (c / 16) mod 16) * 16 + c mod 16 = c.
Proof.
  intro H.
  pose proof (N.div_mod c 16 ltac:(lia)) as E0.
  pose proof (N.div_mod (c / 16) 16 ltac:(lia)) as E1.
  pose proof (N.div_mod (c / 16 / 16) 16 ltac:(lia)) as E2.
  rewrite !N.Div0.div_div in E1, E2.
  change (16 * 16) with 256 in *.
  rewrite N.Div0.div_div in E2. change (256 * 16) with 4096 in *.
  assert (S3 : c / 4096 < 16) by (apply N.Div0.div_lt_upper_bound; lia).
  rewrite (N.mod_small (c / 4096) 16 S3).
  lia.
Qed.

Lemma json_unicode_escape c rest stk k acc :
  c < 65536 ->
  Json.run (unicode_escape c ++ rest) (stk, PString k acc SNormal) =
  Json.run rest (stk, PString k (c :: acc) SNormal).
Proof.
  intro H. unfold unicode_escape.
  assert (D : forall x, hex_value (hex_digit (x mod 16)) = Some (x mod 16)).
  { intro x. apply hex_value_digit. apply N.mod_lt. lia. }
  cbn [app Json.run].
  change (Json.step (stk, PString k acc SNormal) 92)
    with (Some (stk, PString k acc SEscape)).
  cbn iota.
  change (Json.step (stk, PString k acc SEscape) 117)
    with (Some (stk, PString k acc (SHex 4 0))).
  cbn iota.
  unfold Json.step at 1. cbn [step_other step_string]. rewrite D. cbn iota.
  unfold Json.step at 1. cbn [step_other step_string]. rewrite D. cbn iota.
  unfold Json.step at 1. cbn [step_other step_string]. rewrite D. cbn iota.
  unfold Json.step at 1. cbn [step_other step_string]. rewrite D. cbn iota.
  rewrite N.mul_0_l, N.add_0_l, hex4_value by exact H. reflexivity.
Qed.

Lemma json_plain_unit c stk k acc :
  32 <= c -> c <> 34 -> c <> 92 ->
  Json.step (stk, PString k acc SNormal) c = Some (stk, PString k (c :: acc) SNormal).
Proof.
  intros H32 H34 H92. unfold Json.step. cbn [step_other step_string].
  destruct (N.eqb_spec c 34); [contradiction|].
  destruct (N.eqb_spec c 92); [contradiction|].
  destruct (N.ltb_spec c 32); [lia | reflexivity].
Qed.

Lemma json_escape_unit c rest stk k acc :
  Json.run (escape_unit c ++ rest) (stk, PString k acc SNormal) =
  Json.run rest (stk, PString k (c :: acc) SNormal).
Proof.
  unfold escape_unit.
  repeat match goal with
         | |- context [if ?x =? ?y then _ else _] =>
             destruct (N.eqb_spec x y); [subst; reflexivity|]
         end.
  destruct (N.ltb_spec c 32).
  - apply json_unicode_escape. lia.
  - cbn [app Json.run]. rewrite json_plain_unit by (lia || assumption). reflexivity.
Qed.

Lemma surrogate_range c : is_lead c || is_trail c = true -> 32 <= c < 65536 /\ c <> 34 /\ c <> 92.
Proof.
  unfold is_lead, is_trail.
  rewrite orb_true_iff, !andb_true_iff, !N.leb_le. lia.
Qed.

(** Reading back what [quote_body] wrote. *)
Lemma json_quote_body_upto n : forall s, (List.length s <= n)%nat ->
  forall rest stk k acc,
    Json.run (quote_body s ++ rest) (stk, PString k acc SNormal) =
    Json.run rest (stk, PString k (rev s ++ acc) SNormal).
Proof.
  induction n as [|n IH]; intros [|c s] Hn rest stk k acc; try reflexivity.
  - simpl in Hn. lia.
  - simpl in Hn.
    cbn [quote_body rev]. rewrite <- (app_assoc (rev s)). cbn [app].
    destruct (is_lead c) eqn:L.
    + destruct s as [|d s'].
      * destruct (surrogate_range c) as (? & ? & ?); [now rewrite L|].
        rewrite json_unicode_escape by lia. reflexivity.
      * destruct (is_trail d) eqn:T.
        -- destruct (surrogate_range c) as (? & ? & ?); [now rewrite L|].
           destruct (surrogate_range d) as (? & ? & ?); [now rewrite T, orb_true_r|].
           cbn [app Json.run]. rewrite !json_plain_unit by (lia || assumption).
           rewrite IH by (simpl in Hn; lia).
           cbn [rev]. rewrite <- !app_assoc. reflexivity.
        -- destruct (surrogate_range c) as (? & ? & ?); [now rewrite L|].
           rewrite <- app_assoc, json_unicode_escape by lia.
           rewrite IH by lia. reflexivity.
    + destruct (is_trail c) eqn:T.
      * destruct (surrogate_range c) as (? & ? & ?); [now rewrite T, orb_true_r|].
        rewrite <- app_assoc, json_unicode_escape by lia.
        rewrite IH by lia. reflexivity.
      * rewrite <- app_assoc, json_escape_unit.
        rewrite IH by lia. reflexivity.
Qed.

Lemma json_read_string s rest stk :
  Json.run (QuoteJSONString s ++ rest) (stk, PValue) =
  match finish stk (JString s) with
  | Some st => Json.run rest st
  | None => None
  end.
Proof.
  unfold QuoteJSONString. cbn [app Json.run].
  change (Json.step (stk, PValue) 34) with (Some (stk, PString false [] SNormal)).
  cbn iota. rewrite <- app_assoc.
  rewrite (json_quote_body_upto (List.length s)) by lia.
  cbn [app Json.run]. unfold Json.step. cbn [step_other step_string]. cbn [N.eqb Pos.eqb].
  rewrite app_nil_r, rev_involutive.
  destruct (finish stk (JString s)); reflexivity.
Qed.

Lemma json_read_key key rest ms stk p :
  p = PObjStart \/ p = PObjKey ->
  Json.run (QuoteJSONString key ++ rest) (FObj ms None :: stk, p) =
  Json.run rest (FObj ms (Some key) :: stk, PColon).
Proof.
  intro Hp. unfold QuoteJSONString. cbn [app Json.run].
  assert (E : Json.step (FObj ms None :: stk, p) 34
              = Some (FObj ms None :: stk, PString true [] SNormal))
    by (destruct Hp as [-> | ->]; reflexivity).
  rewrite E. rewrite <- app_assoc.
  rewrite (json_quote_body_upto (List.length key)) by lia.
  cbn [app Json.run]. unfold Json.step. cbn [step_other step_string]. cbn [N.eqb Pos.eqb].
  rewrite app_nil_r, rev_involutive. reflexivity.
Qed.


(** ** Reading back what [JSON.stringify] wrote *)



(** The text of a canonical value starts with neither white space nor
    a closing bracket, so after an opening bracket it is read as after a
    comma. *)
Lemma json_first_in_array v rest stk :
  canonical v ->
  Json.run (JSON_stringify v ++ rest) (stk, PArrStart) =
  Json.run (JSON_stringify v ++ rest) (stk, PValue).
Proof.
  destruct v as [|[]|n|s|items|members]; intro C;
    [reflexivity | reflexivity | reflexivity | contradiction
    | reflexivity | reflexivity | reflexivity].
Qed.

Lemma json_step_array_comma done stk :
  Json.step (FArr done :: stk, PAfter) 44 = Some (FArr done :: stk, PValue).
Proof. reflexivity. Qed.

Lemma json_step_array_close done stk :
  Json.step (FArr done :: stk, PAfter) 93 = finish stk (JArray (rev done)).
Proof. reflexivity. Qed.

Lemma json_step_object_comma ms stk :
  Json.step (FObj ms None :: stk, PAfter) 44 = Some (FObj ms None :: stk, PObjKey).
Proof. reflexivity. Qed.

Lemma json_step_object_close ms stk :
  Json.step (FObj ms None :: stk, PAfter) 125 = finish stk (JObject ms).
Proof. reflexivity. Qed.

Lemma json_step_colon stk :
  Json.step (stk, PColon) 58 = Some (stk, PValue).
Proof. reflexivity. Qed.

Lemma canonical_items x items :
  canonical (JArray (x :: items)) -> canonical x /\ canonical (JArray items).
Proof. intro H. exact H. Qed.

Lemma json_read_items items :
  Forall reads_back items -> items <> [] ->
  forall done rest stk,
    Json.run (join_comma (map JSON_stringify items) ++ 93 :: rest)
      (FArr done :: stk, PValue) =
    match finish stk (JArray (rev done ++ items)) with
    | Some st => Json.run rest st
    | None => None
    end.
Proof.
  induction 1 as [|x items Hx Hitems IH]; intros Hne done rest stk; [contradiction|].
  destruct items as [|y items'].
  - cbn [map join_comma]. rewrite Hx. cbn [finish Json.run].
    rewrite json_step_array_close. cbn [rev]. reflexivity.
  - change (join_comma (map JSON_stringify (x :: y :: items')))
      with (JSON_stringify x ++ 44 :: join_comma (map JSON_stringify (y :: items'))).
    rewrite <- app_assoc. cbn [app]. rewrite Hx. cbn [finish Json.run].
    rewrite json_step_array_comma. rewrite IH by discriminate.
    cbn [rev]. rewrite <- app_assoc. reflexivity.
Qed.

Lemma json_read_members members :
  Forall (fun kv => reads_back (snd kv)) members -> members <> [] ->
  forall acc rest stk p,
    p = PObjStart \/ p = PObjKey ->
    Json.run (join_comma (map member_text members) ++ 125 :: rest)
      (FObj acc None :: stk, p) =
    match finish stk (JObject (fold_left put_member members acc)) with
    | Some st => Json.run rest st
    | None => None
    end.
Proof.
  induction 1 as [|[k v] members Hv Hmembers IH]; intros Hne acc rest stk p Hp;
    [contradiction|].
  cbn [snd] in Hv.
  assert (One : forall tail,
             Json.run (member_text (k, v) ++ tail) (FObj acc None :: stk, p) =
             Json.run tail (FObj (obj_set acc k v) None :: stk, PAfter)).
  { intro tail. cbn [member_text]. rewrite <- app_assoc, json_read_key by exact Hp.
    cbn [app Json.run]. rewrite json_step_colon, Hv. reflexivity. }
  destruct members as [|kv members'].
  - cbn [map join_comma]. rewrite One. cbn [Json.run].
    rewrite json_step_object_close. reflexivity.
  - change (join_comma (map member_text ((k, v) :: kv :: members')))
      with (member_text (k, v) ++ 44 :: join_comma (map member_text (kv :: members'))).
    rewrite <- app_assoc. cbn [app]. rewrite One. cbn [Json.run].
    rewrite json_step_object_comma. rewrite IH by (discriminate || auto).
    reflexivity.
Qed.

Lemma canonical_array items :
  canonical (JArray items) <-> Forall canonical items.
Proof.
  induction items as [|x items IH].
  - split; [constructor | exact (fun _ => I)].
  - split.
    + intros [Hx Hs]. constructor; [exact Hx | now apply IH].
    + intro H. inversion H; subst. split; [assumption | now apply IH].
Qed.

Lemma canonical_object members :
  canonical (JObject members) <->
  fold_left put_member members [] = members
  /\ Forall (fun kv => canonical (snd kv)) members.
Proof.
  cbn [canonical].
  assert (A : forall l,
             (fix all (l : list (jsstring * json)) : Prop :=
                match l with
                | [] => True
                | (_, x) :: l' => canonical x /\ all l'
                end) l <-> Forall (fun kv => canonical (snd kv)) l).
  { induction l as [|[k x] l IH].
    - split; [constructor | exact (fun _ => I)].
    - split.
      + intros [Hx Hs]. constructor; [exact Hx | now apply IH].
      + intro H. inversion H; subst. split; [assumption | now apply IH]. }
  now rewrite A.
Qed.

Lemma Forall_modus_ponens {A} (P Q : A -> Prop) l :
  Forall (fun x => P x -> Q x) l -> Forall P l -> Forall Q l.
Proof.
  induction 1 as [|x l Hx Hl IH]; intro H; [constructor|].
  inversion H; subst. constructor; auto.
Qed.

(** Every canonical value is read back from its text. *)
Lemma canonical_reads_back v : canonical v -> reads_back v.
Proof.
  induction v as [|b|n|s|items IH|members IH] using json_nested_ind; intros C rest stk.
  - reflexivity.
  - destruct b; reflexivity.
  - contradiction.
  - apply json_read_string.
  - apply canonical_array in C.
    pose proof (Forall_modus_ponens _ _ _ IH C) as R.
    cbn [JSON_stringify app]. rewrite <- app_assoc. cbn [app Json.run].
    change (Json.step (stk, PValue) 91) with (Some (FArr [] :: stk, PArrStart)).
    cbn iota.
    destruct items as [|x items']; [reflexivity|].
    inversion C as [|? ? Cx _]; subst.
    assert (F : forall tail,
               Json.run (join_comma (map JSON_stringify (x :: items')) ++ tail)
                 (FArr [] :: stk, PArrStart) =
               Json.run (join_comma (map JSON_stringify (x :: items')) ++ tail)
                 (FArr [] :: stk, PValue)).
    { intro tail. destruct items' as [|y items''].
      - cbn [map join_comma]. now apply json_first_in_array.
      - change (join_comma (map JSON_stringify (x :: y :: items'')))
          with (JSON_stringify x ++ 44 :: join_comma (map JSON_stringify (y :: items''))).
        rewrite <- app_assoc. now apply json_first_in_array. }
    rewrite F, json_read_items by (exact R || discriminate). reflexivity.
  - apply canonical_object in C as [Cfold Cs].
    pose proof (Forall_modus_ponens (fun kv => canonical (snd kv))
                  (fun kv => reads_back (snd kv)) _ IH Cs) as R.
    cbn [JSON_stringify app]. fold member_text. rewrite <- app_assoc. cbn [app Json.run].
    change (Json.step (stk, PValue) 123) with (Some (FObj [] None :: stk, PObjStart)).
    cbn iota.
    destruct members as [|kv members']; [reflexivity|].
    rewrite json_read_members by (exact R || discriminate || auto).
    now rewrite Cfold.
Qed.

(** [JSON.parse (JSON.stringify v)] is [v], for every canonical [v]. *)
Theorem JSON_parse_stringify v :
  canonical v -> JSON_parse (JSON_stringify v) = Some v.
Proof.
  intro C. unfold JSON_parse.
  rewrite <- (app_nil_r (JSON_stringify v)), (canonical_reads_back v C). reflexivity.
Qed.

Lemma JSON_parse_stringify_witness :
  JSON_parse (JSON_stringify
                (JObject [(str "7", JArray [JNull; JBool true; JString (str "x")]);
                          (str "result", JObject [])])) =
  Some (JObject [(str "7", JArray [JNull; JBool true; JString (str "x")]);
                 (str "result", JObject [])]).
Proof.
  apply JSON_parse_stringify. cbn [canonical]. repeat split.
Defined.

(** In particular the serialised three-field record. *)
Lemma JSON_parse_claude_record r s b :
  JSON_parse (JSON_stringify (claude_record r s b)) = Some (claude_record r s b).
Proof. apply JSON_parse_stringify. cbn [canonical]. repeat split. Qed.

(** ** The interpreter *)

Lemma parse_not_json stdout :
  JSON_parse stdout = None -> parseClaudeJsonResponse stdout = raw_output stdout.
Proof. intro H. unfold parseClaudeJsonResponse, parse_attempt. now rewrite H. Qed.

Lemma parse_object stdout ms :
  JSON_parse stdout = Some (JObject ms) ->
  parseClaudeJsonResponse stdout =
  {| response := js_or (lookup (str "result") ms) (JString (JSON_stringify (JObject ms)));
     sessionId := js_or (lookup (str "session_id") ms) JNull;
     isError := js_or (lookup (str "is_error") ms) (JBool false) |}.
Proof. intro H. unfold parseClaudeJsonResponse, parse_attempt. now rewrite H. Qed.

(** ** The shell reader *)

Lemma bash_run_app s1 s2 st :
  Bash.run (s1 ++ s2) st =
  match Bash.run s1 st with Some st' => Bash.run s2 st' | None => None end.
Proof.
  revert st. induction s1 as [|c s1 IH]; intro st; simpl; [reflexivity|].
  destruct (Bash.step st c); [apply IH | reflexivity].
Qed.

Lemma shell_safe_unit_spec c :
  shell_safe_unit c = true ->
  32 <= c /\ c <> 36 /\ c <> 96 /\ is_lead c = false /\ is_trail c = false.
Proof.
  unfold shell_safe_unit.
  rewrite !andb_true_iff, !negb_true_iff, orb_false_iff, N.leb_le, !N.eqb_neq. tauto.
Qed.

Lemma bash_double_unit c w toks :
  32 <= c -> c <> 34 -> c <> 92 -> c <> 36 -> c <> 96 ->
  Bash.step (in_double w toks) c = Some (in_double (c :: w) toks).
Proof.
  intros H32 H34 H92 H36 H96.
  unfold Bash.step, in_double. cbn [Bash.st_mode Bash.st_cur Bash.st_toks].
  destruct (N.eqb_spec c 34); [contradiction|].
  destruct (N.eqb_spec c 92); [contradiction|].
  destruct (N.eqb_spec c 36); [contradiction|].
  destruct (N.eqb_spec c 96); [contradiction|].
  reflexivity.
Qed.

Lemma hex_digit_range d :
  d < 16 -> 48 <= hex_digit d <= 57 \/ 97 <= hex_digit d <= 102.
Proof.
  intro H. unfold hex_digit. destruct (N.ltb_spec d 10); lia.
Qed.

(** Between double quotes the shell keeps a [\uXXXX] as it is. *)
Lemma bash_unicode_escape c rest w toks :
  Bash.run (unicode_escape c ++ rest) (in_double w toks) =
  Bash.run rest (in_double (rev (unicode_escape c) ++ w) toks).
Proof.
  unfold unicode_escape.
  assert (D : forall x, 48 <= hex_digit (x mod 16) <= 57 \/ 97 <= hex_digit (x mod 16) <= 102)
    by (intro x; apply hex_digit_range, N.mod_lt; lia).
  cbn [app Bash.run].
  change (Bash.step (in_double w toks) 92)
    with (Some {| Bash.st_mode := Bash.DoubleBackslash; Bash.st_cur := Some w;
                  Bash.st_toks := toks |}).
  cbn iota.
  change (Bash.step {| Bash.st_mode := Bash.DoubleBackslash; Bash.st_cur := Some w;
                       Bash.st_toks := toks |} 117)
    with (Some (in_double (117 :: 92 :: w) toks)).
  cbn iota.
  rewrite !bash_double_unit by (pose proof (D c); pose proof (D (c / 16));
                                pose proof (D (c / 256)); pose proof (D (c / 4096)); lia).
  reflexivity.
Qed.

(** Between double quotes the shell reads one code unit of the prompt
    back from its escape, or keeps the escape. *)
Lemma bash_escape_unit c rest w toks :
  c <> 36 -> c <> 96 ->
  Bash.run (escape_unit c ++ rest) (in_double w toks) =
  Bash.run rest
    (in_double (rev (if c <? 32 then escape_unit c else [c]) ++ w) toks).
Proof.
  intros H36 H96. unfold escape_unit.
  repeat match goal with
         | |- context [if ?x =? ?y then _ else _] =>
             destruct (N.eqb_spec x y); [subst; reflexivity|]
         end.
  destruct (N.ltb_spec c 32).
  - apply bash_unicode_escape.
  - cbn [app Bash.run rev]. now rewrite bash_double_unit by (lia || assumption).
Qed.

Lemma bash_quote_body_upto n : forall s, (List.length s <= n)%nat ->
  no_expansion s = true ->
  forall rest w toks,
    Bash.run (quote_body s ++ rest) (in_double w toks) =
    Bash.run rest (in_double (rev (shell_image s) ++ w) toks).
Proof.
  induction n as [|n IH]; intros [|c s] Hn H rest w toks; try reflexivity.
  - simpl in Hn. lia.
  - simpl in Hn. unfold no_expansion in H. cbn [forallb] in H.
    apply andb_true_iff in H as [Hc Hs]. fold (no_expansion s) in Hs.
    apply negb_true_iff, orb_false_iff in Hc as [H36 H96].
    apply N.eqb_neq in H36, H96.
    cbn [quote_body shell_image].
    destruct (is_lead c) eqn:L.
    + destruct s as [|d s'].
      * rewrite bash_unicode_escape. reflexivity.
      * destruct (is_trail d) eqn:T.
        -- destruct (surrogate_range c) as (? & ? & ?); [now rewrite L|].
           destruct (surrogate_range d) as (? & ? & ?); [now rewrite T, orb_true_r|].
           unfold no_expansion in Hs. cbn [forallb] in Hs.
           apply andb_true_iff in Hs as [Hd Hs']. fold (no_expansion s') in Hs'.
           apply negb_true_iff, orb_false_iff in Hd as [D36 D96].
           apply N.eqb_neq in D36, D96.
           cbn [app Bash.run]. rewrite !bash_double_unit by (lia || assumption).
           rewrite IH by (assumption || (simpl in Hn; lia)).
           cbn [rev]. rewrite <- !app_assoc. reflexivity.
        -- rewrite <- app_assoc, bash_unicode_escape.
           rewrite IH by (assumption || lia).
           rewrite rev_app_distr, <- app_assoc. reflexivity.
    + destruct (is_trail c) eqn:T.
      * rewrite <- app_assoc, bash_unicode_escape.
        rewrite IH by (assumption || lia).
        rewrite rev_app_distr, <- app_assoc. reflexivity.
      * rewrite <- app_assoc, bash_escape_unit by assumption.
        rewrite IH by (assumption || lia).
        destruct (c <? 32).
        -- rewrite rev_app_distr, <- app_assoc. reflexivity.
        -- cbn [rev app]. rewrite <- !app_assoc. reflexivity.
Qed.

Lemma bash_quote_body s : no_expansion s = true ->
  forall rest w toks,
    Bash.run (quote_body s ++ rest) (in_double w toks) =
    Bash.run rest (in_double (rev (shell_image s) ++ w) toks).
Proof. intro H. now apply (bash_quote_body_upto (List.length s)). Qed.

(** A shell-safe text is free of expansions and is read back as it is. *)
Lemma shell_safe_upto n : forall s, (List.length s <= n)%nat ->
  shell_safe s = true -> no_expansion s = true /\ shell_image s = s.
Proof.
  induction n as [|n IH]; intros [|c s] Hn H; try (split; reflexivity).
  - simpl in Hn. lia.
  - simpl in Hn. cbn [shell_safe] in H. cbn [shell_image].
    unfold no_expansion. cbn [forallb]. fold (no_expansion s).
    assert (R : forall x, is_lead x || is_trail x = true -> x <> 36 /\ x <> 96).
    { intro x. unfold is_lead, is_trail.
      rewrite orb_true_iff, !andb_true_iff, !N.leb_le. lia. }
    destruct (is_lead c) eqn:L.
    + destruct s as [|d s']; [discriminate|].
      apply andb_true_iff in H as [T Hs]. rewrite T.
      destruct (IH s') as [E I]; [simpl in Hn; lia | exact Hs |].
      destruct (R c) as [? ?]; [now rewrite L|].
      destruct (R d) as [? ?]; [now rewrite T, orb_true_r|].
      unfold no_expansion in *. cbn [forallb]. rewrite E, I.
      repeat match goal with
             | Hx : ?x <> ?y |- _ => apply N.eqb_neq in Hx; rewrite Hx
             end.
      split; reflexivity.
    + apply andb_true_iff in H as [Hc Hs].
      destruct (shell_safe_unit_spec c Hc) as (H32 & H36 & H96 & _ & T). rewrite T.
      destruct (IH s) as [E I]; [lia | exact Hs |].
      apply N.eqb_neq in H36, H96. rewrite H36, H96, E, I.
      destruct (N.ltb_spec c 32); [lia|]. split; reflexivity.
Qed.

Lemma shell_safe_no_expansion s : shell_safe s = true -> no_expansion s = true.
Proof. intro H. now apply (shell_safe_upto (List.length s)). Qed.

Lemma shell_image_safe s : shell_safe s = true -> shell_image s = s.
Proof. intro H. now apply (shell_safe_upto (List.length s)). Qed.

Lemma escape_starts_with_backslash c :
  (exists t, unicode_escape c = 92 :: t)
  /\ (c < 32 -> exists t, escape_unit c = 92 :: t).
Proof.
  split; [unfold unicode_escape; eauto|].
  intro H. unfold escape_unit.
  repeat match goal with
         | |- context [if ?x =? ?y then _ else _] => destruct (x =? y); [eauto|]
         end.
  destruct (N.ltb_spec c 32); [unfold unicode_escape; eauto | lia].
Qed.

(** A word without a backslash is read back only from itself. *)
Lemma shell_image_word_upto n : forall s w, (List.length s <= n)%nat ->
  shell_image s = w -> ~ In 92 w -> s = w.
Proof.
  induction n as [|n IH]; intros [|c s] w Hn H Hw; try (now subst).
  simpl in Hn. cbn [shell_image] in H.
  assert (Esc : forall t u, 92 :: t ++ u = w -> False)
    by (intros t u E; apply Hw; rewrite <- E; now left).
  destruct (escape_starts_with_backslash c) as [[t Ut] Ct].
  destruct (is_lead c) eqn:L.
  + destruct s as [|d s'].
    * exfalso. rewrite Ut in H. apply (Esc t []). now rewrite app_nil_r.
    * destruct (is_trail d) eqn:T.
      -- subst w. do 2 f_equal. apply IH; [simpl in Hn; lia | reflexivity |].
         intro X. apply Hw. now do 2 right.
      -- exfalso. rewrite Ut in H. exact (Esc _ _ H).
  + destruct (is_trail c).
    * exfalso. rewrite Ut in H. exact (Esc _ _ H).
    * destruct (N.ltb_spec c 32) as [Lt | Ge].
      -- exfalso. destruct (Ct Lt) as [t' Et]. rewrite Et in H. exact (Esc _ _ H).
      -- subst w. f_equal. apply IH; [lia | reflexivity |].
         intro X. apply Hw. now right.
Qed.

Lemma shell_image_word s w : shell_image s = w -> ~ In 92 w -> s = w.
Proof. apply (shell_image_word_upto (List.length s)). lia. Qed.

Lemma is_plain_spec c :
  Bash.is_plain c = true ->
  Bash.is_blank c = false /\ c <> 34 /\ c <> 39 /\ c <> 92 /\ c <> 60.
Proof.
  unfold Bash.is_plain, Bash.is_blank.
  rewrite !orb_true_iff, !andb_true_iff, orb_false_iff, !N.leb_le, !N.eqb_eq, !N.eqb_neq.
  lia.
Qed.

Lemma bash_plain_unit c cur toks :
  Bash.is_plain c = true ->
  Bash.step (in_plain cur toks) c = Some (in_plain (Bash.push c cur) toks).
Proof.
  intro H. destruct (is_plain_spec c H) as (B & H34 & H39 & H92 & H60).
  unfold Bash.step, in_plain. cbn [Bash.st_mode Bash.st_cur Bash.st_toks].
  rewrite B, H.
  destruct (N.eqb_spec c 34); [contradiction|].
  destruct (N.eqb_spec c 39); [contradiction|].
  destruct (N.eqb_spec c 92); [contradiction|].
  destruct (N.eqb_spec c 60); [contradiction|].
  reflexivity.
Qed.

Lemma bash_plain_units t : forallb Bash.is_plain t = true ->
  forall rest w toks,
    Bash.run (t ++ rest) (in_plain (Some w) toks) =
    Bash.run rest (in_plain (Some (rev t ++ w)) toks).
Proof.
  induction t as [|c t IH]; intros H rest w toks; [reflexivity|].
  cbn [forallb] in H. apply andb_true_iff in H as [Hc Ht].
  cbn [app Bash.run]. rewrite bash_plain_unit by exact Hc.
  cbn [Bash.push]. rewrite IH by exact Ht.
  cbn [rev]. rewrite <- app_assoc. reflexivity.
Qed.

(** A piece read from between words leaves its word open. *)
Lemma bash_piece p rest toks :
  piece_ok p = true ->
  Bash.run (piece_text p ++ rest) (in_plain None toks) =
  Bash.run rest (in_plain (Some (rev (piece_word p))) toks).
Proof.
  destruct p as [w | s]; cbn [piece_ok piece_text piece_word]; intro H.
  - unfold plain_token in H. apply andb_true_iff in H as [Hn Hp].
    destruct w as [|c w]; [discriminate|].
    cbn [forallb] in Hp. apply andb_true_iff in Hp as [Hc Hw].
    cbn [app Bash.run]. rewrite bash_plain_unit by exact Hc.
    cbn [Bash.push]. rewrite bash_plain_units by exact Hw. reflexivity.
  - unfold QuoteJSONString. cbn [app Bash.run].
    change (Bash.step (in_plain None toks) 34) with (Some (in_double [] toks)).
    rewrite <- app_assoc, bash_quote_body by exact H.
    cbn [app Bash.run]. rewrite app_nil_r. reflexivity.
Qed.

Lemma bash_render ps : forallb piece_ok ps = true ->
  forall rest toks,
    Bash.run (render ps ++ 32 :: rest) (in_plain None toks) =
    Bash.run rest (in_plain None (rev (map Bash.Word (map piece_word ps)) ++ toks)).
Proof.
  induction ps as [|p ps IH]; intros H rest toks; [reflexivity|].
  cbn [forallb] in H. apply andb_true_iff in H as [Hp Hps].
  assert (One : forall tail toks',
             Bash.run (piece_text p ++ 32 :: tail) (in_plain None toks') =
             Bash.run tail (in_plain None (Bash.Word (piece_word p) :: toks'))).
  { intros tail toks'. rewrite bash_piece by exact Hp.
    cbn [Bash.run]. unfold Bash.step, in_plain.
    cbn [Bash.st_mode Bash.st_cur Bash.st_toks Bash.is_blank N.eqb Pos.eqb orb Bash.flush].
    rewrite rev_involutive. reflexivity. }
  destruct ps as [|q ps'].
  - cbn [render map rev app]. apply One.
  - change (render (p :: q :: ps')) with (piece_text p ++ 32 :: render (q :: ps')).
    rewrite <- app_assoc. cbn [app]. rewrite One, IH by exact Hps.
    cbn [map rev]. rewrite <- !app_assoc. reflexivity.
Qed.

Lemma simple_command_words ws f :
  Bash.simple_command (map Bash.Word ws ++ [Bash.RedirIn; Bash.Word f]) =
  Some {| Bash.argv := ws; Bash.stdin := Some f |}.
Proof.
  induction ws as [|w ws IH]; [reflexivity|].
  cbn [map app Bash.simple_command]. rewrite IH. reflexivity.
Qed.

(** The shell starts a rendered command line with the words of its
    pieces, the standard input redirected. *)
Lemma bash_parse_render ps :
  forallb piece_ok ps = true ->
  Bash.parse (Service.fullCmd (render ps)) =
  Some {| Bash.argv := map piece_word ps; Bash.stdin := Some (str "/dev/null") |}.
Proof.
  intro H. unfold Bash.parse, Bash.tokens, Service.fullCmd.
  change (str " < /dev/null") with (32 :: str "< /dev/null").
  change Bash.init with (in_plain None []).
  rewrite bash_render by exact H.
  rewrite app_nil_r.
  change (Bash.run (str "< /dev/null")
            (in_plain None (rev (map Bash.Word (map piece_word ps)))))
    with (Some (in_plain (Some (rev (str "/dev/null")))
                  (Bash.RedirIn :: rev (map Bash.Word (map piece_word ps))))).
  cbn [in_plain Bash.st_mode Bash.st_cur Bash.st_toks Bash.flush].
  cbn [rev]. rewrite rev_involutive, <- app_assoc.
  change (rev (rev (str "/dev/null"))) with (str "/dev/null").
  apply simple_command_words.
Qed.

Lemma render_app ps qs :
  ps <> [] -> qs <> [] -> render (ps ++ qs) = render ps ++ 32 :: render qs.
Proof.
  intros Hp Hq. induction ps as [|p ps IH]; [contradiction|].
  destruct ps as [|p' ps'].
  - destruct qs; [contradiction | reflexivity].
  - change (render ((p :: p' :: ps') ++ qs))
      with (piece_text p ++ 32 :: render ((p' :: ps') ++ qs)).
    rewrite IH by discriminate.
    change (render (p :: p' :: ps')) with (piece_text p ++ 32 :: render (p' :: ps')).
    rewrite <- app_assoc. reflexivity.
Qed.

Lemma with_model_render options ps :
  ps <> [] ->
  Service.with_model options (render ps) = render (ps ++ model_pieces options).
Proof.
  intro H. unfold Service.with_model, model_pieces.
  destruct (Service.model options) as [m|]; [|now rewrite app_nil_r].
  destruct (nonempty m); [|now rewrite app_nil_r].
  rewrite render_app by (exact H || discriminate). reflexivity.
Qed.

Lemma with_system_prompt_render flag options ps :
  ps <> [] ->
  Service.with_system_prompt (32 :: flag ++ [32]) options (render ps) =
  render (ps ++ system_prompt_pieces flag options).
Proof.
  intro H. unfold Service.with_system_prompt, system_prompt_pieces.
  destruct (Service.systemPrompt options) as [sp|]; [|now rewrite app_nil_r].
  destruct (nonempty sp); [|now rewrite app_nil_r].
  rewrite render_app by (exact H || discriminate).
  cbn [render piece_text app]. rewrite <- !app_assoc. reflexivity.
Qed.

Lemma pieces_nonempty (p : piece) ps qs : (p :: ps) ++ qs <> [].
Proof. discriminate. Qed.

Lemma claude_command_render prompt options :
  Service.claude_command prompt options = render (claude_pieces prompt options).
Proof.
  unfold Service.claude_command, claude_pieces.
  change (str " --system-prompt ") with (32 :: str "--system-prompt" ++ [32]).
  match goal with
  | |- _ = render (?base ++ ?m ++ ?sp) =>
      transitivity (render ((base ++ m) ++ sp)); [|now rewrite <- app_assoc]
  end.
  rewrite <- with_system_prompt_render by apply pieces_nonempty.
  rewrite <- with_model_render by discriminate.
  reflexivity.
Qed.

Lemma reply_command_render prompt sessionId options :
  Service.reply_command prompt sessionId options =
  render (reply_pieces prompt sessionId options).
Proof.
  unfold Service.reply_command, reply_pieces.
  change (str " --append-system-prompt ") with (32 :: str "--append-system-prompt" ++ [32]).
  match goal with
  | |- _ = render (?hd ++ ?base ++ ?m ++ ?sp) =>
      transitivity (render (((hd ++ base) ++ m) ++ sp)); [|now rewrite <- !app_assoc]
  end.
  assert (N : forall qs, (if truthy_opt sessionId
                          then [Bare (str "claude"); Bare (str "-r");
                                Bare (match sessionId with Some id => id | None => [] end)]
                          else [Bare (str "claude"); Bare (str "-c")]) ++ qs <> [])
    by (intro qs; destruct (truthy_opt sessionId); discriminate).
  rewrite <- with_system_prompt_render by (rewrite <- app_assoc; apply N).
  rewrite <- with_model_render by apply N.
  destruct sessionId as [[|c id]|]; reflexivity.
Qed.

Lemma tame_spec options :
  tame options = true ->
  forallb piece_ok (model_pieces options) = true
  /\ forall flag, plain_token flag = true ->
       forallb piece_ok (system_prompt_pieces flag options) = true.
Proof.
  unfold tame, model_pieces, system_prompt_pieces. intro H.
  apply andb_true_iff in H as [Hm Hs]. split.
  - destruct (Service.model options) as [m|]; [|reflexivity].
    destruct (nonempty m); [|reflexivity].
    cbn [negb orb] in Hm. cbn [forallb piece_ok]. now rewrite Hm.
  - intros flag Hf. destruct (Service.systemPrompt options) as [sp|]; [|reflexivity].
    destruct (nonempty sp); [|reflexivity].
    cbn [forallb piece_ok]. now rewrite Hf, Hs.
Qed.

Lemma claude_pieces_ok prompt options :
  no_expansion prompt = true -> tame options = true ->
  forallb piece_ok (claude_pieces prompt options) = true.
Proof.
  intros Hp Ht. destruct (tame_spec options Ht) as [Hm Hs].
  unfold claude_pieces. rewrite !forallb_app, Hm, Hs by reflexivity.
  cbn [forallb piece_ok]. rewrite Hp. reflexivity.
Qed.

Lemma reply_pieces_ok prompt sessionId options :
  no_expansion prompt = true -> tame options = true -> tame_id sessionId = true ->
  forallb piece_ok (reply_pieces prompt sessionId options) = true.
Proof.
  intros Hp Ht Hi. destruct (tame_spec options Ht) as [Hm Hs].
  unfold reply_pieces. rewrite !forallb_app, Hm, Hs by reflexivity.
  cbn [forallb piece_ok]. rewrite Hp.
  destruct sessionId as [id|]; [|reflexivity].
  cbn [tame_id] in Hi. cbn [truthy_opt].
  destruct (nonempty id); [|reflexivity].
  cbn [negb orb] in Hi. cbn [forallb piece_ok]. now rewrite Hi.
Qed.

Lemma claude_pieces_words prompt options :
  map piece_word (claude_pieces prompt options) = claude_args prompt options.
Proof.
  unfold claude_pieces, claude_args, model_pieces, model_args,
    system_prompt_pieces, system_prompt_args.
  rewrite !map_app.
  destruct (Service.model options) as [m|]; [destruct (nonempty m)|];
    (destruct (Service.systemPrompt options) as [sp|]; [destruct (nonempty sp)|]);
    reflexivity.
Qed.

Lemma reply_pieces_words prompt sessionId options :
  map piece_word (reply_pieces prompt sessionId options) =
  reply_args prompt sessionId options.
Proof.
  unfold reply_pieces, reply_args, model_pieces, model_args,
    system_prompt_pieces, system_prompt_args.
  rewrite !map_app.
  destruct sessionId as [[|c id]|];
    (destruct (Service.model options) as [m|]; [destruct (nonempty m)|]);
    (destruct (Service.systemPrompt options) as [sp|]; [destruct (nonempty sp)|]);
    reflexivity.
Qed.

(** What the shell starts for the command line of a new session. *)
Lemma spawned_claude_command prompt options :
  no_expansion prompt = true -> tame options = true ->
  spawned (Service.claude_command prompt options) =
  Some (to_dev_null (claude_args prompt options)).
Proof.
  intros Hp Ht. unfold spawned.
  rewrite claude_command_render, bash_parse_render by now apply claude_pieces_ok.
  now rewrite claude_pieces_words.
Qed.

(** What the shell starts for the command line of a continued session. *)
Lemma spawned_reply_command prompt sessionId options :
  no_expansion prompt = true -> tame options = true -> tame_id sessionId = true ->
  spawned (Service.reply_command prompt sessionId options) =
  Some (to_dev_null (reply_args prompt sessionId options)).
Proof.
  intros Hp Ht Hi. unfold spawned.
  rewrite reply_command_render, bash_parse_render by now apply reply_pieces_ok.
  now rewrite reply_pieces_words.
Qed.

(** A word without a backslash among the optional arguments is one of
    the two flags or one of the two texts. *)
Lemma in_optional_args w flag options :
  ~ In 92 w ->
  In w (model_args options ++ system_prompt_args flag options) ->
  w = str "--model" \/ w = flag
  \/ Service.model options = Some w \/ Service.systemPrompt options = Some w.
Proof.
  unfold model_args, system_prompt_args. intros Hw H.
  apply in_app_or in H as [H | H].
  - destruct (Service.model options) as [m|]; [|contradiction].
    destruct (nonempty m); [|contradiction].
    destruct H as [<- | [<- | []]]; auto.
  - destruct (Service.systemPrompt options) as [sp|]; [|contradiction].
    destruct (nonempty sp); [|contradiction].
    destruct H as [<- | [H | []]]; auto.
    apply shell_image_word in H; [subst; auto | exact Hw].
Qed.

Lemma names_word_spec w prompt options :
  names_word w prompt options = false ->
  prompt <> w /\ Service.model options <> Some w /\ Service.systemPrompt options <> Some w.
Proof.
  unfold names_word. rewrite !orb_false_iff. intros [[Hp Hm] Hs]. repeat split.
  - intros ->. now rewrite jsstring_eqb_refl in Hp.
  - intros E. rewrite E, jsstring_eqb_refl in Hm. discriminate.
  - intros E. rewrite E, jsstring_eqb_refl in Hs. discriminate.
Qed.

(* ===================================================================== *)
(** * Command building                                                     *)
(* ===================================================================== *)

(** Two concrete words differ, or a text differs from a word by
    hypothesis. *)
Ltac absurd_word H :=
  exfalso;
  first [ contradiction
        | congruence
        | apply jsstring_eqb_eq in H; vm_compute in H; discriminate ].

(** Whatever the prompt, as long as it has no [$] and no backquote, the
    tool receives one argument for it after [-p]: the prompt as the shell
    reads it back. *)
Theorem prompt_is_one_argument prompt sessionId options :
  no_expansion prompt = true -> tame options = true -> tame_id sessionId = true ->
  (exists rest,
      spawned (Service.claude_command prompt options) =
      Some (to_dev_null (str "claude" :: str "-p" :: shell_image prompt :: rest)))
  /\ (exists mode rest,
         spawned (Service.reply_command prompt sessionId options) =
         Some (to_dev_null (str "claude" :: mode ++ str "-p" :: shell_image prompt :: rest))
         /\ (mode = [str "-c"] \/ exists id, mode = [str "-r"; id])).
Proof.
  intros Hp Ht Hi. split.
  - rewrite spawned_claude_command by assumption.
    unfold claude_args. cbn [app]. eauto.
  - rewrite spawned_reply_command by assumption.
    unfold reply_args.
    destruct sessionId as [id|]; [destruct (nonempty id)|].
    + exists [str "-r"; id]. eexists. split; [reflexivity | eauto].
    + exists [str "-c"]. eexists. split; [reflexivity | eauto].
    + exists [str "-c"]. eexists. split; [reflexivity | eauto].
Qed.

Lemma prompt_is_one_argument_witness :
  exists rest,
    spawned (Service.claude_command (str "tab" ++ 9 :: str "bed") Service.no_options) =
    Some (to_dev_null (str "claude" :: str "-p" :: str "tab\tbed" :: rest)).
Proof.
  exact (proj1 (prompt_is_one_argument (str "tab" ++ 9 :: str "bed") None
                  Service.no_options eq_refl eq_refl eq_refl)).
Defined.

(** A prompt free of control characters, [$], backquotes and surrogates
    outside a pair reaches the tool whole and unchanged. *)
Theorem shell_safe_prompt_is_unchanged prompt sessionId options :
  shell_safe prompt = true -> tame options = true -> tame_id sessionId = true ->
  (exists rest,
      spawned (Service.claude_command prompt options) =
      Some (to_dev_null (str "claude" :: str "-p" :: prompt :: rest)))
  /\ (exists mode rest,
         spawned (Service.reply_command prompt sessionId options) =
         Some (to_dev_null (str "claude" :: mode ++ str "-p" :: prompt :: rest))
         /\ (mode = [str "-c"] \/ exists id, mode = [str "-r"; id])).
Proof.
  intros Hp Ht Hi.
  pose proof (prompt_is_one_argument prompt sessionId options
                (shell_safe_no_expansion prompt Hp) Ht Hi) as P.
  rewrite (shell_image_safe prompt Hp) in P. exact P.
Qed.

Lemma shell_safe_prompt_is_unchanged_witness :
  exists rest,
    spawned (Service.claude_command (qstr "say 'hi' \ " ++ str "it's") Service.no_options) =
    Some (to_dev_null (str "claude" :: str "-p"
                         :: (qstr "say 'hi' \ " ++ str "it's") :: rest)).
Proof.
  exact (proj1 (shell_safe_prompt_is_unchanged
                  (qstr "say 'hi' \ " ++ str "it's") None Service.no_options
                  eq_refl eq_refl eq_refl)).
Defined.

(** A text the shell reads back as it is has no control character and
    no surrogate outside a pair. *)
Lemma shell_image_fixed_upto n : forall s, (List.length s <= n)%nat ->
  no_expansion s = true -> shell_image s = s -> shell_safe s = true.
Proof.
  induction n as [|n IH]; intros [|c s] Hn He H; try reflexivity.
  - simpl in Hn. lia.
  - simpl in Hn. cbn [shell_image] in H. cbn [shell_safe].
    unfold no_expansion in He. cbn [forallb] in He.
    apply andb_true_iff in He as [Hc Hs]. fold (no_expansion s) in Hs.
    destruct (escape_starts_with_backslash c) as [[t Ut] Ct].
    assert (Esc : forall u, 92 :: u = c :: s ->
                            is_lead c = false /\ is_trail c = false /\ 32 <= c).
    { intros u E. injection E as <- _. repeat split. lia. }
    destruct (is_lead c) eqn:L.
    + destruct s as [|d s'].
      * rewrite Ut in H. destruct (Esc _ H) as (X & _ & _). discriminate.
      * destruct (is_trail d) eqn:T.
        -- injection H as H. cbn [andb].
           unfold no_expansion in Hs. cbn [forallb] in Hs.
           apply andb_true_iff in Hs as [_ Hs'].
           apply IH; [simpl in Hn; lia | exact Hs' | exact H].
        -- rewrite Ut in H. cbn [app] in H.
           destruct (Esc _ H) as (X & _ & _). discriminate.
    + destruct (is_trail c) eqn:T.
      * rewrite Ut in H. cbn [app] in H.
        destruct (Esc _ H) as (_ & X & _). discriminate.
      * destruct (N.ltb_spec c 32) as [Lt | Ge].
        -- destruct (Ct Lt) as [t' Et]. rewrite Et in H. cbn [app] in H.
           destruct (Esc _ H) as (_ & _ & X). lia.
        -- injection H as H.
           unfold shell_safe_unit. rewrite L, T.
           apply negb_true_iff, orb_false_iff in Hc as [-> ->].
           apply N.leb_le in Ge. rewrite Ge. cbn [negb andb orb].
           apply IH; [lia | exact Hs | exact H].
Qed.

(** For a prompt with no [$] and no backquote, the argument the tool
    receives is the prompt exactly when the prompt has no control
    character and no surrogate outside a pair. *)
Theorem prompt_unchanged_iff_shell_safe prompt :
  no_expansion prompt = true ->
  (shell_image prompt = prompt <-> shell_safe prompt = true).
Proof.
  intro He. split.
  - now apply (shell_image_fixed_upto (List.length prompt)).
  - apply shell_image_safe.
Qed.

Lemma prompt_unchanged_iff_shell_safe_witness :
  shell_image (str "it's " ++ [34; 92]) = str "it's " ++ [34; 92]
  <-> shell_safe (str "it's " ++ [34; 92]) = true.
Proof.
  exact (prompt_unchanged_iff_shell_safe (str "it's " ++ [34; 92]) eq_refl).
Defined.

(** C1, at a failing input.  The prompt is [line1], a line feed, [line2].
    [JSON.stringify] writes the line feed as a backslash and an [n];
    between double quotes the shell keeps both, so the tool receives the
    twelve code units of [line1\nline2] (the literal below has no
    escapes: it holds a backslash and an [n]), not the prompt.  The same
    happens in the continue operation. *)
Theorem newline_prompt_reaches_tool_altered :
  let prompt := str "line1" ++ 10 :: str "line2" in
  spawned (Service.claude_command prompt Service.no_options) =
    Some (to_dev_null [str "claude"; str "-p"; str "line1\nline2";
                       str "--output-format"; str "json"])
  /\ spawned (Service.reply_command prompt None Service.no_options) =
    Some (to_dev_null [str "claude"; str "-c"; str "-p"; str "line1\nline2";
                       str "--output-format"; str "json"])
  /\ str "line1\nline2" <> prompt.
Proof. vm_compute. repeat split; discriminate. Qed.

(** The words without a backslash of a new session's command line. *)
Lemma in_claude_args w prompt options :
  ~ In 92 w ->
  In w (claude_args prompt options) ->
  In w [str "claude"; str "-p"; str "--output-format"; str "json";
        str "--model"; str "--system-prompt"]
  \/ prompt = w \/ Service.model options = Some w \/ Service.systemPrompt options = Some w.
Proof.
  unfold claude_args. intros Hw H. apply in_app_or in H as [H | H].
  - cbn [In] in H. cbn [In].
    destruct H as [H | [H | [H | H]]]; [auto | auto | | intuition].
    apply shell_image_word in H; auto.
  - apply in_optional_args in H; [|exact Hw]. cbn [In]. intuition.
Qed.

(** The words without a backslash of a continued session's command
    line, after the mode. *)
Lemma in_reply_tail w prompt options :
  ~ In 92 w ->
  In w ([str "-p"; shell_image prompt; str "--output-format"; str "json"]
        ++ model_args options ++ system_prompt_args (str "--append-system-prompt") options) ->
  In w [str "-p"; str "--output-format"; str "json";
        str "--model"; str "--append-system-prompt"]
  \/ prompt = w \/ Service.model options = Some w \/ Service.systemPrompt options = Some w.
Proof.
  intros Hw H. apply in_app_or in H as [H | H].
  - cbn [In] in H. cbn [In].
    destruct H as [H | [H | H]]; [auto | | intuition].
    apply shell_image_word in H; auto.
  - apply in_optional_args in H; [|exact Hw]. cbn [In]. intuition.
Qed.

Lemma flags_have_no_backslash :
  ~ In 92 (str "-c") /\ ~ In 92 (str "-r")
  /\ ~ In 92 (str "--system-prompt") /\ ~ In 92 (str "--append-system-prompt").
Proof.
  repeat split; intro H; vm_compute in H;
    repeat (destruct H as [H | H]; [discriminate|]); exact H.
Qed.

Ltac no_such_word H :=
  cbn [In] in H;
  repeat match type of H with
         | _ \/ _ => destruct H as [H | H]
         end;
  absurd_word H.

(** C5, as amended.  For a request whose prompt and system prompt have
    no [$] and no backquote, whose model is a simple token, and none of
    whose texts is itself [-c] or [-r]: the command line of the start operation has
    neither [-c] nor [-r] among its words; the one of the continue
    operation without an identifier (none, or the empty one) has [-c] as
    its second word and no [-r]; the one for a simple-token identifier
    [Y] other than [-c] has [-r] then [Y] as its second and third words
    and no [-c]. *)
Theorem mode_selection_flags prompt options :
  no_expansion prompt = true -> tame options = true ->
  names_word (str "-c") prompt options = false ->
  names_word (str "-r") prompt options = false ->
  (exists args,
      spawned (Service.claude_command prompt options) = Some (to_dev_null args)
      /\ ~ In (str "-c") args /\ ~ In (str "-r") args)
  /\ (forall sessionId, truthy_opt sessionId = false ->
       exists rest,
         spawned (Service.reply_command prompt sessionId options) =
         Some (to_dev_null (str "claude" :: str "-c" :: rest))
         /\ ~ In (str "-r") (str "claude" :: str "-c" :: rest))
  /\ (forall Y, plain_token Y = true -> Y <> str "-c" ->
       exists rest,
         spawned (Service.reply_command prompt (Some Y) options) =
         Some (to_dev_null (str "claude" :: str "-r" :: Y :: rest))
         /\ ~ In (str "-c") (str "claude" :: str "-r" :: Y :: rest)).
Proof.
  intros Hp Ht Hc Hr.
  destruct (names_word_spec _ _ _ Hc) as (Pc & Mc & Sc).
  destruct (names_word_spec _ _ _ Hr) as (Pr & Mr & Sr).
  destruct flags_have_no_backslash as (Bc & Br & _ & _).
  repeat split.
  - exists (claude_args prompt options). split; [now apply spawned_claude_command|].
    split; intro H; apply in_claude_args in H as [H | [H | [H | H]]];
      solve [no_such_word H | assumption].
  - intros sessionId Hs. eexists. split.
    + rewrite spawned_reply_command; [| assumption | assumption |].
      * unfold reply_args.
        destruct sessionId as [id|]; [cbn [truthy_opt] in Hs; rewrite Hs|];
          reflexivity.
      * destruct sessionId as [id|]; [|reflexivity].
        cbn [truthy_opt] in Hs. cbn [tame_id]. now rewrite Hs.
    + intros [H | [H | H]]; [absurd_word H | absurd_word H |].
      apply in_reply_tail in H as [H | [H | [H | H]]];
        solve [no_such_word H | assumption].
  - intros Y HY Yc. eexists. split.
    + rewrite spawned_reply_command; [| assumption | assumption |].
      * unfold reply_args.
        assert (N : nonempty Y = true) by (unfold plain_token in HY; now apply andb_true_iff in HY).
        rewrite N. reflexivity.
      * cbn [tame_id]. rewrite HY. apply orb_true_r.
    + intros [H | [H | [H | H]]]; [absurd_word H | absurd_word H | absurd_word H |].
      apply in_reply_tail in H as [H | [H | [H | H]]];
        solve [no_such_word H | assumption].
Qed.

Lemma mode_selection_flags_witness :
  exists args,
    spawned (Service.claude_command (str "Continue please") Service.no_options) =
    Some (to_dev_null args)
    /\ ~ In (str "-c") args /\ ~ In (str "-r") args.
Proof.
  exact (proj1 (mode_selection_flags (str "Continue please") Service.no_options
                  eq_refl eq_refl eq_refl eq_refl)).
Defined.

(** C5 as stated fails: the identifier goes into the command line as it
    is, so the identifier [x -c] makes a command line that has both [-r]
    and [-c] among its words. *)
Lemma identifier_with_blank_adds_latest_flag :
  spawned (Service.reply_command (str "hi") (Some (str "x -c")) Service.no_options) =
    Some (to_dev_null [str "claude"; str "-r"; str "x"; str "-c"; str "-p"; str "hi";
                       str "--output-format"; str "json"])
  /\ In (str "-c") [str "claude"; str "-r"; str "x"; str "-c"; str "-p"; str "hi";
                    str "--output-format"; str "json"].
Proof. split; [vm_compute; reflexivity | cbn [In]; auto]. Qed.

(** C6, as amended.  For a request with a non-empty system prompt, whose
    prompt and system prompt have no [$] and no backquote, whose model
    and identifier are simple tokens, and none of whose texts is itself
    one of the two flags: the command line of the start operation ends
    with [--system-prompt] and the system prompt (as the shell reads it
    back) and has no [--append-system-prompt] among its words; the one of
    the continue operation ends with [--append-system-prompt] and the
    system prompt and has no [--system-prompt]. *)
Theorem system_prompt_flags prompt options sp :
  Service.systemPrompt options = Some sp -> nonempty sp = true ->
  no_expansion prompt = true -> tame options = true ->
  names_word (str "--system-prompt") prompt options = false ->
  names_word (str "--append-system-prompt") prompt options = false ->
  (exists before,
      spawned (Service.claude_command prompt options) =
      Some (to_dev_null (before ++ [str "--system-prompt"; shell_image sp]))
      /\ ~ In (str "--append-system-prompt")
            (before ++ [str "--system-prompt"; shell_image sp]))
  /\ (forall sessionId,
         tame_id sessionId = true -> sessionId <> Some (str "--system-prompt") ->
         exists before,
           spawned (Service.reply_command prompt sessionId options) =
           Some (to_dev_null (before ++ [str "--append-system-prompt"; shell_image sp]))
           /\ ~ In (str "--system-prompt")
                 (before ++ [str "--append-system-prompt"; shell_image sp])).
Proof.
  intros Hsp Hn Hp Ht Hs Ha.
  destruct (names_word_spec _ _ _ Hs) as (Ps & Ms & Ss).
  destruct (names_word_spec _ _ _ Ha) as (Pa & Ma & Sa).
  destruct flags_have_no_backslash as (_ & _ & Bs & Ba).
  assert (E : forall flag, system_prompt_args flag options = [flag; shell_image sp])
    by (intro flag; unfold system_prompt_args; now rewrite Hsp, Hn).
  split.
  - exists ([str "claude"; str "-p"; shell_image prompt; str "--output-format"; str "json"]
            ++ model_args options).
    assert (A : claude_args prompt options =
                ([str "claude"; str "-p"; shell_image prompt; str "--output-format";
                  str "json"]
                 ++ model_args options) ++ [str "--system-prompt"; shell_image sp])
      by (unfold claude_args; now rewrite E, <- app_assoc).
    rewrite <- A. split; [now apply spawned_claude_command|].
    intro H. apply in_claude_args in H as [H | [H | [H | H]]];
      solve [no_such_word H | assumption].
  - intros sessionId Hi Hne.
    set (mode := match sessionId with
                 | Some id => if nonempty id then [str "claude"; str "-r"; id]
                              else [str "claude"; str "-c"]
                 | None => [str "claude"; str "-c"]
                 end).
    exists (mode ++ [str "-p"; shell_image prompt; str "--output-format"; str "json"]
            ++ model_args options).
    assert (A : reply_args prompt sessionId options =
                (mode ++ [str "-p"; shell_image prompt; str "--output-format"; str "json"]
                 ++ model_args options) ++ [str "--append-system-prompt"; shell_image sp])
      by (unfold reply_args; fold mode; now rewrite E, <- !app_assoc).
    rewrite <- A. split; [now apply spawned_reply_command|].
    unfold reply_args. fold mode. intro H. apply in_app_or in H as [H | H].
    + subst mode. destruct sessionId as [id|]; [destruct (nonempty id)|];
        solve [no_such_word H].
    + apply in_reply_tail in H as [H | [H | [H | H]]];
        solve [no_such_word H | assumption].
Qed.

Lemma system_prompt_flags_witness :
  exists before,
    spawned (Service.claude_command (str "Test")
               {| Service.model := Some (str "opus");
                  Service.systemPrompt := Some (str "Be helpful");
                  Service.cwd := None |}) =
    Some (to_dev_null (before ++ [str "--system-prompt"; str "Be helpful"]))
    /\ ~ In (str "--append-system-prompt")
           (before ++ [str "--system-prompt"; str "Be helpful"]).
Proof.
  exact (proj1 (system_prompt_flags (str "Test")
                  {| Service.model := Some (str "opus");
                     Service.systemPrompt := Some (str "Be helpful");
                     Service.cwd := None |}
                  (str "Be helpful") eq_refl eq_refl eq_refl eq_refl eq_refl eq_refl)).
Defined.

(** C6 as stated fails: the model goes into the command line as it is,
    so a start request whose model is [opus --append-system-prompt x]
    makes a command line with both flags among its words. *)
Lemma model_with_blank_adds_append_flag :
  let options := {| Service.model := Some (str "opus --append-system-prompt x");
                    Service.systemPrompt := Some (str "Be helpful");
                    Service.cwd := None |} in
  let args := [str "claude"; str "-p"; str "Test"; str "--output-format"; str "json";
               str "--model"; str "opus"; str "--append-system-prompt"; str "x";
               str "--system-prompt"; str "Be helpful"] in
  spawned (Service.claude_command (str "Test") options) = Some (to_dev_null args)
  /\ In (str "--append-system-prompt") args.
Proof. split; [vm_compute; reflexivity | cbn [In]; auto 10]. Qed.

(* ===================================================================== *)
(** * The response interpreter                                             *)
(* ===================================================================== *)

(** C2, as amended.  Interpreting the serialised text of a record with
    the fields [result], [session_id] and [is_error] recovers [is_error]
    always, [session_id] when it is not empty (an empty one comes back
    absent), and [result] when it is not empty (for an empty one the
    response is the whole serialised record).  This holds of the record
    [{result, session_id, is_error}], of every canonical record with
    these three fields among others, and of every text that decodes to a
    record with them. *)
Theorem record_round_trip r s b :
  let recovered whole :=
    {| Service.response := if nonempty r then JString r else JString whole;
       Service.sessionId := if nonempty s then JString s else JNull;
       Service.isError := JBool b |} in
  Service.parseClaudeJsonResponse (JSON_stringify (claude_record r s b)) =
    recovered (JSON_stringify (claude_record r s b))
  /\ (forall ms,
        canonical (JObject ms) ->
        lookup (str "result") ms = Some (JString r) ->
        lookup (str "session_id") ms = Some (JString s) ->
        lookup (str "is_error") ms = Some (JBool b) ->
        Service.parseClaudeJsonResponse (JSON_stringify (JObject ms)) =
          recovered (JSON_stringify (JObject ms)))
  /\ (forall stdout ms,
        JSON_parse stdout = Some (JObject ms) ->
        lookup (str "result") ms = Some (JString r) ->
        lookup (str "session_id") ms = Some (JString s) ->
        lookup (str "is_error") ms = Some (JBool b) ->
        Service.parseClaudeJsonResponse stdout = recovered (JSON_stringify (JObject ms))).
Proof.
  intro recovered.
  assert (D : forall stdout ms,
             JSON_parse stdout = Some (JObject ms) ->
             lookup (str "result") ms = Some (JString r) ->
             lookup (str "session_id") ms = Some (JString s) ->
             lookup (str "is_error") ms = Some (JBool b) ->
             Service.parseClaudeJsonResponse stdout =
             recovered (JSON_stringify (JObject ms))).
  { intros stdout ms H Hr Hs Hb. subst recovered.
    rewrite (parse_object _ _ H), Hr, Hs, Hb.
    cbn [js_or truthy]. destruct b; reflexivity. }
  split; [|split].
  - apply D; [apply JSON_parse_claude_record | reflexivity ..].
  - intros ms C. apply D. now apply JSON_parse_stringify.
  - exact D.
Qed.

Lemma record_round_trip_witness :
  Service.parseClaudeJsonResponse
    (qstr "{'type':'result','subtype':'success','is_error':false,'result':'Hello, how can I help you?','session_id':'test-session-id'}")
  = {| Service.response := JString (str "Hello, how can I help you?");
       Service.sessionId := JString (str "test-session-id");
       Service.isError := JBool false |}.
Proof.
  exact (proj2 (proj2 (record_round_trip (str "Hello, how can I help you?")
                         (str "test-session-id") false))
           (qstr "{'type':'result','subtype':'success','is_error':false,'result':'Hello, how can I help you?','session_id':'test-session-id'}")
           [(str "type", JString (str "result"));
            (str "subtype", JString (str "success"));
            (str "is_error", JBool false);
            (str "result", JString (str "Hello, how can I help you?"));
            (str "session_id", JString (str "test-session-id"))]
           eq_refl eq_refl eq_refl eq_refl).
Defined.

(** C2 as stated fails: an empty [result] is not recovered. *)
Lemma empty_result_is_not_recovered :
  Service.response
    (Service.parseClaudeJsonResponse
       (JSON_stringify (claude_record [] (str "abc") false)))
  = JString (qstr "{'result':'','session_id':'abc','is_error':false}")
  /\ JString (qstr "{'result':'','session_id':'abc','is_error':false}") <> JString [].
Proof. split; [vm_compute; reflexivity | discriminate]. Qed.

(** The values that count as false. *)
Lemma falsy_values v :
  truthy v = false <->
  v = JNull \/ v = JBool false \/ v = JString []
  \/ exists n, v = JNumber n /\ num_mant n = 0.
Proof.
  split.
  - destruct v as [|[]|n|[|c s]| |]; cbn [truthy nonempty]; intro H;
      try discriminate; auto.
    right; right; right. exists n. split; [reflexivity|].
    apply negb_false_iff in H. now apply N.eqb_eq in H.
  - intros [-> | [-> | [-> | (n & -> & H)]]]; cbn [truthy nonempty]; try reflexivity.
    rewrite H. reflexivity.
Qed.

(** C10.  When the decoded record has a [result] that counts as false
    (the empty string, zero, [false] or [null]) the response is the whole
    record serialised again; an empty [session_id] gives no session
    identifier, and a false [is_error] gives [false]. *)
Theorem falsy_fields_fall_back stdout ms :
  JSON_parse stdout = Some (JObject ms) ->
  (forall v, lookup (str "result") ms = Some v -> truthy v = false ->
     Service.response (Service.parseClaudeJsonResponse stdout) =
     JString (JSON_stringify (JObject ms)))
  /\ (lookup (str "session_id") ms = Some (JString []) ->
      Service.sessionId (Service.parseClaudeJsonResponse stdout) = JNull)
  /\ (lookup (str "is_error") ms = Some (JBool false) ->
      Service.isError (Service.parseClaudeJsonResponse stdout) = JBool false).
Proof.
  intro H. rewrite (parse_object _ _ H). cbn [Service.response Service.sessionId Service.isError].
  repeat split.
  - intros v -> Hv. cbn [js_or]. now rewrite Hv.
  - now intros ->.
  - now intros ->.
Qed.

Lemma falsy_fields_fall_back_witness :
  Service.response
    (Service.parseClaudeJsonResponse (qstr "{'result':0,'session_id':'','is_error':false}"))
  = JString (qstr "{'result':0,'session_id':'','is_error':false}").
Proof.
  exact (proj1 (falsy_fields_fall_back
                  (qstr "{'result':0,'session_id':'','is_error':false}")
                  [(str "result", JNumber {| num_neg := false; num_mant := 0; num_exp := 0 |});
                   (str "session_id", JString []);
                   (str "is_error", JBool false)]
                  eq_refl)
           _ eq_refl eq_refl).
Defined.

(** C7, as amended.  A text [T] that is not JSON is interpreted as its
    trimmed self, with no session identifier and no error; interpreting
    the response again gives the same triple when the trimmed text is not
    JSON either. *)
Theorem fallback_on_undecodable T :
  JSON_parse T = None ->
  Service.parseClaudeJsonResponse T =
    {| Service.response := JString (trim T);
       Service.sessionId := JNull;
       Service.isError := JBool false |}
  /\ (JSON_parse (trim T) = None ->
      Service.parseClaudeJsonResponse (trim T) = Service.parseClaudeJsonResponse T).
Proof.
  intro H. split.
  - now rewrite parse_not_json.
  - intro H'. rewrite !parse_not_json by assumption.
    unfold Service.raw_output. now rewrite trim_idem.
Qed.

Lemma fallback_on_undecodable_witness :
  Service.parseClaudeJsonResponse (str "  This is not JSON, just plain text output  ") =
    {| Service.response := JString (str "This is not JSON, just plain text output");
       Service.sessionId := JNull;
       Service.isError := JBool false |}
  /\ Service.parseClaudeJsonResponse (str "This is not JSON, just plain text output") =
     Service.parseClaudeJsonResponse (str "  This is not JSON, just plain text output  ").
Proof.
  destruct (fallback_on_undecodable
              (str "  This is not JSON, just plain text output  ") eq_refl) as [A B].
  split; [exact A | exact (B eq_refl)].
Defined.

(** C7 as stated fails: [trim] strips a form feed, which [JSON.parse]
    does not skip.  The text below (a form feed, then a JSON object) is
    not JSON, its trimmed self is, and interpreting the response again
    gives another response. *)
Lemma form_feed_breaks_idempotence :
  let T := 12 :: qstr "{'result':'x'}" in
  JSON_parse T = None
  /\ Service.parseClaudeJsonResponse T =
       {| Service.response := JString (qstr "{'result':'x'}");
          Service.sessionId := JNull; Service.isError := JBool false |}
  /\ Service.parseClaudeJsonResponse (qstr "{'result':'x'}") =
       {| Service.response := JString (str "x");
          Service.sessionId := JNull; Service.isError := JBool false |}
  /\ JString (str "x") <> JString (qstr "{'result':'x'}").
Proof. vm_compute. repeat split. discriminate. Qed.

(** ** Texts padded with the white space [JSON.parse] skips *)

Lemma is_json_ws_spec c : is_json_ws c = true -> c = 9 \/ c = 10 \/ c = 13 \/ c = 32.
Proof.
  unfold is_json_ws. rewrite !orb_true_iff, !N.eqb_eq. tauto.
Qed.

Lemma json_ws_is_js_whitespace c : is_json_ws c = true -> is_js_whitespace c = true.
Proof.
  intro H. apply is_json_ws_spec in H as [-> | [-> | [-> | ->]]]; reflexivity.
Qed.

(** White space after a complete text leaves its value in place. *)
Lemma json_ws_keeps_result st c v :
  result st = Some v -> is_json_ws c = true ->
  exists st', Json.step st c = Some st' /\ result st' = Some v.
Proof.
  intros H Hc. destruct st as [[|f stk] p]; [|destruct p; discriminate].
  destruct p as [ | | | | | | v' | | | ph a]; try discriminate.
  - cbn [result] in H. injection H as ->.
    exists ([], PDone v). unfold Json.step. cbn [step_other]. now rewrite Hc.
  - cbn [result] in H. destruct (num_accepting ph) eqn:A; [|discriminate].
    injection H as <-. exists ([], PDone (JNumber (number_of a))).
    unfold Json.step. rewrite A.
    assert (N : step_num ph a c = None)
      by (apply is_json_ws_spec in Hc as [-> | [-> | [-> | ->]]];
          destruct ph; reflexivity).
    rewrite N. cbn [finish step_other]. now rewrite Hc.
Qed.

Lemma json_ws_run_keeps_result ws : forallb is_json_ws ws = true ->
  forall st v, result st = Some v ->
  exists st', Json.run ws st = Some st' /\ result st' = Some v.
Proof.
  induction ws as [|c ws IH]; intros H st v Hv; [now exists st|].
  cbn [forallb] in H. apply andb_true_iff in H as [Hc Hws].
  destruct (json_ws_keeps_result st c v Hv Hc) as (st1 & E & Hv1).
  cbn [Json.run]. rewrite E. now apply IH.
Qed.

Lemma json_ws_run_before ws : forallb is_json_ws ws = true ->
  forall text, Json.run (ws ++ text) ([], PValue) = Json.run text ([], PValue).
Proof.
  induction ws as [|c ws IH]; intros H text; [reflexivity|].
  cbn [forallb] in H. apply andb_true_iff in H as [Hc Hws].
  cbn [app Json.run]. unfold Json.step. cbn [step_other]. rewrite Hc. now apply IH.
Qed.

(** A text that is JSON stays JSON, with the same value, when padded. *)
Lemma JSON_parse_padded lead core trail v :
  forallb is_json_ws lead = true -> forallb is_json_ws trail = true ->
  JSON_parse core = Some v -> JSON_parse (lead ++ core ++ trail) = Some v.
Proof.
  unfold JSON_parse. intros Hl Ht H.
  rewrite json_ws_run_before by exact Hl. rewrite json_run_app.
  destruct (Json.run core ([], PValue)) as [st|]; [|discriminate].
  destruct (json_ws_run_keeps_result trail Ht st v H) as (st' & -> & Hv). exact Hv.
Qed.

Lemma drop_while_all p lead s :
  forallb p lead = true -> drop_while p (lead ++ s) = drop_while p s.
Proof.
  induction lead as [|c lead IH]; intro H; [reflexivity|].
  cbn [forallb] in H. apply andb_true_iff in H as [Hc Hl].
  cbn [app drop_while]. rewrite Hc. now apply IH.
Qed.

Lemma forallb_rev (p : code_unit -> bool) s : forallb p (rev s) = forallb p s.
Proof.
  induction s as [|c s IH]; [reflexivity|].
  cbn [rev forallb]. rewrite forallb_app, IH. cbn [forallb].
  rewrite andb_true_r. apply andb_comm.
Qed.

Lemma trimEnd_all s trail :
  forallb is_js_whitespace trail = true -> trimEnd (s ++ trail) = trimEnd s.
Proof.
  intro H. unfold trimEnd. rewrite rev_app_distr, drop_while_all; [reflexivity|].
  now rewrite forallb_rev.
Qed.

(** A text that [trim] leaves alone has no white space at either end. *)
Lemma trim_fixed core :
  trim core = core -> trimStart core = core /\ trimEnd core = core.
Proof.
  unfold trim. intro H.
  destruct (drop_while_suffix is_js_whitespace core) as [pre Hpre].
  fold (trimStart core) in Hpre.
  destruct (trimEnd_prefix (trimStart core)) as [t Ht].
  rewrite H in Ht.
  assert (L : List.length core = (List.length pre + List.length core + List.length t)%nat).
  { rewrite Hpre at 1. rewrite Ht at 1. rewrite !length_app. lia. }
  assert (pre = []) by (destruct pre; [reflexivity | simpl in L; lia]).
  subst pre. cbn [app] in Hpre. rewrite <- Hpre in H. now split.
Qed.

Lemma trim_padded lead core trail :
  forallb is_js_whitespace lead = true -> forallb is_js_whitespace trail = true ->
  trim core = core -> trim (lead ++ core ++ trail) = core.
Proof.
  intros Hl Ht H. destruct (trim_fixed core H) as [Hs He].
  unfold trim, trimStart. rewrite drop_while_all by exact Hl.
  destruct core as [|c core].
  - cbn [app]. rewrite <- (app_nil_r trail), drop_while_all by exact Ht. reflexivity.
  - assert (C : is_js_whitespace c = false).
    { pose proof (drop_while_clean is_js_whitespace (c :: core)) as D.
      fold (trimStart (c :: core)) in D. now rewrite Hs in D. }
    cbn [app drop_while]. rewrite C.
    change (c :: core ++ trail) with ((c :: core) ++ trail).
    now rewrite trimEnd_all.
Qed.

(** The fallback is idempotent on a text that is not JSON and carries,
    around its trimmed self, only the white space [JSON.parse] skips
    (space, tab, line feed, carriage return). *)
Theorem fallback_idempotent_in_json_padding lead core trail :
  forallb is_json_ws lead = true -> forallb is_json_ws trail = true ->
  trim core = core ->
  JSON_parse (lead ++ core ++ trail) = None ->
  Service.parseClaudeJsonResponse (lead ++ core ++ trail) =
    {| Service.response := JString core;
       Service.sessionId := JNull;
       Service.isError := JBool false |}
  /\ Service.parseClaudeJsonResponse core =
     Service.parseClaudeJsonResponse (lead ++ core ++ trail).
Proof.
  intros Hl Ht Hc H.
  assert (Hcore : JSON_parse core = None).
  { destruct (JSON_parse core) as [v|] eqn:E; [|reflexivity].
    rewrite (JSON_parse_padded lead core trail v Hl Ht E) in H. discriminate. }
  assert (W : forall ws, forallb is_json_ws ws = true -> forallb is_js_whitespace ws = true).
  { intros ws Hws. apply forallb_forall. intros x Hx.
    apply json_ws_is_js_whitespace. revert x Hx. now apply forallb_forall. }
  rewrite !parse_not_json by assumption. unfold Service.raw_output.
  rewrite trim_padded by auto. now rewrite Hc.
Qed.

Lemma fallback_idempotent_in_json_padding_witness :
  Service.parseClaudeJsonResponse (str "Not JSON") =
  Service.parseClaudeJsonResponse (32 :: str "Not JSON" ++ [13; 10]).
Proof.
  exact (proj2 (fallback_idempotent_in_json_padding [32] (str "Not JSON") [13; 10]
                  eq_refl eq_refl eq_refl eq_refl)).
Defined.

(* ===================================================================== *)
(** * The operations and the dispatch layer                                *)
(* ===================================================================== *)

Import Service Handlers.

Lemma executeClaude_run execFn prompt options calls :
  executeClaude execFn prompt options calls =
  (calls ++ [the_call (claude_command prompt options) options],
   match execFn (claude_command prompt options) {| exec_cwd := cwd options |} with
   | Return out =>
       let p := parseClaudeJsonResponse (stdout out) in
       Return {| res_response := response p; res_sessionId := sessionId p |}
   | Throw e => Throw e
   end).
Proof.
  unfold executeClaude, bind, call_exec, the_call.
  destruct (execFn _ _); reflexivity.
Qed.

Lemma executeClaudeReply_run execFn prompt sid options calls :
  executeClaudeReply execFn prompt sid options calls =
  (calls ++ [the_call (reply_command prompt sid options) options],
   match execFn (reply_command prompt sid options) {| exec_cwd := cwd options |} with
   | Return out =>
       let p := parseClaudeJsonResponse (stdout out) in
       Return {| res_response := response p;
                 res_sessionId := finalSessionId (sessionId p) sid |}
   | Throw e => Throw e
   end).
Proof.
  unfold executeClaudeReply, bind, call_exec, the_call.
  destruct (execFn _ _); reflexivity.
Qed.

(** When nothing in the output counts as a session identifier. *)
Lemma no_session_id stdout :
  JSON_parse stdout = None
  \/ (exists ms, JSON_parse stdout = Some (JObject ms)
                 /\ (lookup (str "session_id") ms = None
                     \/ lookup (str "session_id") ms = Some (JString []))) ->
  sessionId (parseClaudeJsonResponse stdout) = JNull.
Proof.
  intros [H | (ms & H & [L | L])].
  - now rewrite parse_not_json.
  - rewrite (parse_object _ _ H). cbn [sessionId]. now rewrite L.
  - rewrite (parse_object _ _ H). cbn [sessionId]. now rewrite L.
Qed.

(** C3.  The continue operation, called with the identifier [X], on an
    output in which the interpreter finds no session identifier, returns
    [X] as the session identifier. *)
Theorem continuation_fallback execFn prompt X options out calls :
  nonempty X = true ->
  execFn (reply_command prompt (Some X) options) {| exec_cwd := cwd options |} = Return out ->
  sessionId (parseClaudeJsonResponse (stdout out)) = JNull ->
  executeClaudeReply execFn prompt (Some X) options calls =
  (calls ++ [the_call (reply_command prompt (Some X) options) options],
   Return {| res_response := response (parseClaudeJsonResponse (stdout out));
             res_sessionId := JString X |}).
Proof.
  intros HX Hexec Hnone. rewrite executeClaudeReply_run, Hexec.
  cbn zeta. rewrite Hnone. unfold finalSessionId. cbn [truthy]. now rewrite HX.
Qed.

Lemma continuation_fallback_witness :
  executeClaudeReply
    (fun _ _ => Return {| stdout := qstr "{'result':'OK'}"; stderr := [] |})
    (str "Test") (Some (str "original-session-id")) no_options [] =
  ([the_call (qstr "claude -r original-session-id -p 'Test' --output-format json")
      no_options],
   Return {| res_response := JString (str "OK");
             res_sessionId := JString (str "original-session-id") |}).
Proof.
  exact (continuation_fallback
           (fun _ _ => Return {| stdout := qstr "{'result':'OK'}"; stderr := [] |})
           (str "Test") (str "original-session-id") no_options
           {| stdout := qstr "{'result':'OK'}"; stderr := [] |} []
           eq_refl eq_refl eq_refl).
Defined.

(** C4, as amended.  No request is turned down before execution: for
    every prompt, the empty one included, each operation calls the
    execution function once, with the command line built from the
    request; for the empty prompt that command line carries an empty
    quoted argument. *)
Theorem every_prompt_is_executed execFn prompt sid options calls :
  fst (executeClaude execFn prompt options calls) =
    calls ++ [the_call (claude_command prompt options) options]
  /\ fst (executeClaudeReply execFn prompt sid options calls) =
    calls ++ [the_call (reply_command prompt sid options) options]
  /\ claude_command [] no_options = qstr "claude -p '' --output-format json"
  /\ reply_command [] None no_options = qstr "claude -c -p '' --output-format json".
Proof.
  rewrite executeClaude_run, executeClaudeReply_run. repeat split.
Qed.

(** C4 as stated fails: with an empty prompt the execution function is
    called and the operation returns its answer. *)
Lemma empty_prompt_is_executed :
  executeClaude
    (fun _ _ => Return {| stdout := qstr "{'result':'Hi!','session_id':'abc'}";
                          stderr := [] |})
    [] no_options [] =
  ([the_call (qstr "claude -p '' --output-format json") no_options],
   Return {| res_response := JString (str "Hi!"); res_sessionId := JString (str "abc") |}).
Proof. vm_compute. reflexivity. Qed.

Lemma handleToolCall_chat execFn args calls :
  handleToolCall execFn (str "chat") args calls =
  (calls ++ [the_call (claude_command (r_prompt args) (options_of args)) (options_of args)],
   match execFn (claude_command (r_prompt args) (options_of args))
           {| exec_cwd := r_cwd args |} with
   | Return out =>
       let p := parseClaudeJsonResponse (stdout out) in
       Return {| content_text := response p; tr_isError := None;
                 meta_sessionId := meta_of (sessionId p) |}
   | Throw e => Return (error_result e)
   end).
Proof.
  unfold handleToolCall.
  change (jsstring_eqb (str "chat") (str "chat")) with true. cbn iota.
  unfold bind at 1, try_catch, bind at 1, handleClaude, bind at 1.
  change {| model := a_model (as_ClaudeArgs args);
            systemPrompt := a_systemPrompt (as_ClaudeArgs args);
            cwd := a_cwd (as_ClaudeArgs args) |} with (options_of args).
  change (a_prompt (as_ClaudeArgs args)) with (r_prompt args).
  rewrite executeClaude_run. cbn [cwd options_of].
  destruct (execFn _ _); reflexivity.
Qed.

Lemma handleToolCall_chat_reply execFn args calls :
  handleToolCall execFn (str "chat-reply") args calls =
  (calls ++ [the_call (reply_command (r_prompt args) (r_sessionId args) (options_of args))
               (options_of args)],
   match execFn (reply_command (r_prompt args) (r_sessionId args) (options_of args))
           {| exec_cwd := r_cwd args |} with
   | Return out =>
       let p := parseClaudeJsonResponse (stdout out) in
       Return {| content_text := response p; tr_isError := None;
                 meta_sessionId := meta_of (finalSessionId (sessionId p) (r_sessionId args)) |}
   | Throw e => Return (error_result e)
   end).
Proof.
  unfold handleToolCall.
  change (jsstring_eqb (str "chat-reply") (str "chat")) with false.
  change (jsstring_eqb (str "chat-reply") (str "chat-reply")) with true. cbn iota.
  unfold bind at 1, try_catch, bind at 1, handleClaudeReply, bind at 1.
  change {| model := r_model args; systemPrompt := r_systemPrompt args;
            cwd := r_cwd args |} with (options_of args).
  rewrite executeClaudeReply_run. cbn [cwd options_of].
  destruct (execFn _ _); reflexivity.
Qed.

(** C8.  When the execution function throws on the command line of a
    call to [chat] or [chat-reply], [handleToolCall] does not throw: it
    returns a result with the error flag set, whose text is
    [Error executing claude: ] followed by the message of the failure. *)
Theorem execution_failure_becomes_error_result execFn args e calls :
  (execFn (claude_command (r_prompt args) (options_of args))
          {| exec_cwd := r_cwd args |} = Throw e ->
   handleToolCall execFn (str "chat") args calls =
   (calls ++ [the_call (claude_command (r_prompt args) (options_of args))
                (options_of args)],
    Return {| content_text := JString (str "Error executing claude: " ++ message e);
              tr_isError := Some true;
              meta_sessionId := None |}))
  /\ (execFn (reply_command (r_prompt args) (r_sessionId args) (options_of args))
             {| exec_cwd := r_cwd args |} = Throw e ->
      handleToolCall execFn (str "chat-reply") args calls =
      (calls ++ [the_call (reply_command (r_prompt args) (r_sessionId args)
                             (options_of args)) (options_of args)],
       Return {| content_text := JString (str "Error executing claude: " ++ message e);
                 tr_isError := Some true;
                 meta_sessionId := None |})).
Proof.
  split; intro H.
  - rewrite handleToolCall_chat, H. reflexivity.
  - rewrite handleToolCall_chat_reply, H. reflexivity.
Qed.

Lemma execution_failure_becomes_error_result_witness :
  handleToolCall (fun _ _ => Throw {| message := str "Claude CLI not found" |})
    (str "chat")
    {| r_prompt := str "Hello"; r_sessionId := None; r_model := None;
       r_systemPrompt := None; r_cwd := None |} [] =
  ([the_call (qstr "claude -p 'Hello' --output-format json") no_options],
   Return {| content_text := JString (str "Error executing claude: Claude CLI not found");
             tr_isError := Some true;
             meta_sessionId := None |}).
Proof.
  exact (proj1 (execution_failure_becomes_error_result
                  (fun _ _ => Throw {| message := str "Claude CLI not found" |})
                  {| r_prompt := str "Hello"; r_sessionId := None; r_model := None;
                     r_systemPrompt := None; r_cwd := None |}
                  {| message := str "Claude CLI not found" |} [])
           eq_refl).
Defined.

(** A call to any other tool throws. *)
Lemma handleToolCall_unknown execFn name args calls :
  name <> str "chat" -> name <> str "chat-reply" ->
  handleToolCall execFn name args calls =
  (calls, Throw {| message := str "Unknown tool: " ++ name |}).
Proof.
  intros H1 H2. unfold handleToolCall.
  rewrite (jsstring_eqb_neq _ _ H1), (jsstring_eqb_neq _ _ H2). reflexivity.
Qed.

(** C9.  When the execution function returns an output that decodes to
    a record with [is_error] true, the interpreter sees the flag, the
    operation returns normally all the same, and the result of
    [handleToolCall] has no error flag; its text is the response the
    interpreter gives, which is the record's [result] when that is a
    non-empty text. *)
Theorem tool_reported_error_is_ordinary_output execFn args out ms calls :
  JSON_parse (stdout out) = Some (JObject ms) ->
  lookup (str "is_error") ms = Some (JBool true) ->
  let text := js_or (lookup (str "result") ms) (JString (JSON_stringify (JObject ms))) in
  let sid := js_or (lookup (str "session_id") ms) JNull in
  isError (parseClaudeJsonResponse (stdout out)) = JBool true
  /\ (forall r, lookup (str "result") ms = Some (JString r) -> nonempty r = true ->
             text = JString r)
  /\ (execFn (claude_command (r_prompt args) (options_of args))
             {| exec_cwd := r_cwd args |} = Return out ->
      executeClaude execFn (r_prompt args) (options_of args) calls =
        (calls ++ [the_call (claude_command (r_prompt args) (options_of args))
                     (options_of args)],
         Return {| res_response := text; res_sessionId := sid |})
      /\ handleToolCall execFn (str "chat") args calls =
        (calls ++ [the_call (claude_command (r_prompt args) (options_of args))
                     (options_of args)],
         Return {| content_text := text; tr_isError := None;
                   meta_sessionId := meta_of sid |}))
  /\ (execFn (reply_command (r_prompt args) (r_sessionId args) (options_of args))
             {| exec_cwd := r_cwd args |} = Return out ->
      handleToolCall execFn (str "chat-reply") args calls =
        (calls ++ [the_call (reply_command (r_prompt args) (r_sessionId args)
                               (options_of args)) (options_of args)],
         Return {| content_text := text; tr_isError := None;
                   meta_sessionId := meta_of (finalSessionId sid (r_sessionId args)) |})).
Proof.
  intros Hjson Herr text sid. split; [|split; [|split]].
  - rewrite (parse_object _ _ Hjson). cbn [isError]. now rewrite Herr.
  - intros r Hr Hn. subst text. rewrite Hr. cbn [js_or truthy]. now rewrite Hn.
  - intro Hexec. split.
    + rewrite executeClaude_run. cbn [cwd options_of]. rewrite Hexec.
      cbn zeta. now rewrite (parse_object _ _ Hjson).
    + rewrite handleToolCall_chat, Hexec. cbn zeta. now rewrite (parse_object _ _ Hjson).
  - intro Hexec.
    rewrite handleToolCall_chat_reply, Hexec. cbn zeta. now rewrite (parse_object _ _ Hjson).
Qed.

Lemma tool_reported_error_is_ordinary_output_witness :
  handleToolCall
    (fun _ _ => Return {| stdout := qstr "{'type':'result','is_error':true,'result':'An error occurred'}";
                          stderr := [] |})
    (str "chat")
    {| r_prompt := str "Hello"; r_sessionId := None; r_model := None;
       r_systemPrompt := None; r_cwd := None |} [] =
  ([the_call (qstr "claude -p 'Hello' --output-format json") no_options],
   Return {| content_text := JString (str "An error occurred");
             tr_isError := None;
             meta_sessionId := None |}).
Proof.
  exact (proj2 (proj1 (proj2 (proj2
    (tool_reported_error_is_ordinary_output
       (fun _ _ => Return {| stdout := qstr "{'type':'result','is_error':true,'result':'An error occurred'}";
                             stderr := [] |})
       {| r_prompt := str "Hello"; r_sessionId := None; r_model := None;
          r_systemPrompt := None; r_cwd := None |}
       {| stdout := qstr "{'type':'result','is_error':true,'result':'An error occurred'}";
          stderr := [] |}
       [(str "type", JString (str "result")); (str "is_error", JBool true);
        (str "result", JString (str "An error occurred"))]
       [] eq_refl eq_refl))) eq_refl)).
Defined.

(** ** The scenarios of the test suites *)

Example start_scenario :
  executeClaude
    (fun _ _ => Return {| stdout := qstr "{'result':'Hi!','session_id':'abc'}";
                          stderr := [] |})
    (str "Hello") no_options [] =
  ([the_call (qstr "claude -p 'Hello' --output-format json") no_options],
   Return {| res_response := JString (str "Hi!"); res_sessionId := JString (str "abc") |}).
Proof. vm_compute. reflexivity. Qed.

Example escape_scenario :
  claude_command (qstr "Hello 'world' with " ++ str "'quotes'") no_options =
  str "claude -p " ++ 34 :: str "Hello \" ++ 34 :: str "world\" ++ 34
      :: str " with 'quotes'" ++ 34 :: str " --output-format json".
Proof. vm_compute. reflexivity. Qed.

Example reply_scenario :
  reply_command (str "Reply to this") (Some (str "22222222-0000-0000-0000-000000000002"))
    {| model := Some (str "sonnet"); systemPrompt := Some (str "Be concise"); cwd := None |} =
  qstr "claude -r 22222222-0000-0000-0000-000000000002 -p 'Reply to this' --output-format json --model sonnet --append-system-prompt 'Be concise'".
Proof. vm_compute. reflexivity. Qed.

Example parse_scenarios :
  JSON_parse (qstr " {'a':[1.50,-0,1e2,true,null,{}],'1':'x','a':'A\n'} ") =
    Some (JObject [(str "1", JString (str "x")); (str "a", JString [65; 10])])
  /\ option_map JSON_stringify
       (JSON_parse (qstr "[1.50, -0, 1e2, 12e-9, 1e21, 0.000001, 0.1e-6, -12.5E+3]")) =
     Some (str "[1.5,0,100,1.2e-8,1e+21,0.000001,1e-7,-12500]")
  /\ option_map JSON_stringify
       (JSON_parse (qstr " { 'b' : [ ] , '10' : { } , '9' : [ [ ] , 'x' ] , 'b' : null } ")) =
     Some (qstr "{'9':[[],'x'],'10':{},'b':null}")
  /\ JSON_parse (qstr "'\ud83d\ude00 \uD83D \u0041\/'") =
     Some (JString [55357; 56832; 32; 55357; 32; 65; 47])
  /\ JSON_stringify (JString [55357; 56832; 32; 55357; 32; 127; 31; 8232]) =
     34 :: 55357 :: 56832 :: str " \ud83d " ++ 127 :: str "\u001f" ++ [8232; 34]
  /\ map (fun t => JSON_parse (qstr t))
       ["01"; "1."; "[1,]"; "{'a':1,}"; "tru"; "'abc"; ""; "1 2"; "{'a' 1}"; "'\x'";
        "-"; ".5"; "+1"; "1e"; "[]]"; "{"; "nul"; "'\u12G4'"; "{1:2}"; "[1 2]"]%string
     = repeat None 20
  /\ JSON_parse (34 :: 9 :: [34]) = None
  /\ parseClaudeJsonResponse (str "null") = raw_output (str "null")
  /\ parseClaudeJsonResponse (str "5") =
     {| response := JString (str "5"); sessionId := JNull; isError := JBool false |}
  /\ trim (160 :: 9 :: str " a b " ++ [10; 8232; 65279]) = str "a b".
Proof. vm_compute. repeat split. Qed.
